(** * Comparacion2025A/main.py: header normalisation, sheet unification and
      simple typing, as a shallow embedding.

    Python values are modelled as follows.
    - A [str] is the list of its Unicode code points ([N]).
    - The Unicode database behind [unicodedata], [re] and [str.lower] is the
      class [Unicode]; nothing is assumed about it except where a theorem
      states the facts of [UnicodeLaws] as a hypothesis.
    - A dict or a set is a [gmap] or [gset]; a dict whose order matters
      (the sheets of a workbook) is an association list.
    - A pandas DataFrame is a list of column labels with a list of rows. *)

From Stdlib Require Import ZArith NArith QArith Ascii String.
From stdpp Require Import base decidable option list gmap sets strings pretty.

Local Open Scope N_scope.

(** ** Python strings *)

Abbreviation char := N (only parsing).
Abbreviation str := (list N) (only parsing).

(** A string literal of the source (ASCII only). *)
Fixpoint py (s : string) : str :=
  match s with
  | EmptyString => []
  | String a s' => N_of_ascii a :: py s'
  end.

Definition hyphen : char := 45.
Definition underscore : char := 95.
Definition space : char := 32.
Definition dot : char := 46.

(** [str(k)] for a non-negative int. *)
Definition str_of_nat (k : nat) : str := py (pretty k).

(** ** The Unicode database

    [nfkd c] is [unicodedata.normalize("NFKD", c)] for the one code point [c];
    [combining c] is [unicodedata.combining(c) != 0]; [isalnum] and [isspace]
    are the predicates behind [\w] (with the underscore) and [\s] of [re] and
    behind [str.strip()]; [lower] is [str.lower] on one code point. Python
    lowers a string code point by code point, but for U+0130, which NFKD
    decomposes before it reaches [lower], and for a Greek capital sigma at
    the end of a word, which is outside the model. *)
Class Unicode := {
  nfkd : char → str;
  combining : char → bool;
  isalnum : char → bool;
  isspace : char → bool;
  lower : char → char;
}.

(** The facts about the Unicode database that the theorems on [normalize]
    rest on. A character is decomposed when NFKD leaves it alone. *)
Class UnicodeLaws (U : Unicode) : Prop := {
  nfkd_stable : ∀ c d, d ∈ nfkd c → nfkd d = [d];
  nfkd_isspace : ∀ c, isspace c = true →
    nfkd c ≠ [] ∧ Forall (λ d, isspace d = true ∧ combining d = false) (nfkd c);
  lower_decomposed : ∀ c,
    nfkd c = [c] → combining c = false → isalnum c = true →
    isalnum (lower c) = true ∧ lower (lower c) = lower c
    ∧ nfkd (lower c) = [lower c] ∧ combining (lower c) = false;
  lower_isspace : ∀ c, isspace c = true → lower c = c;
  isalnum_not_isspace : ∀ c, isalnum c = true → isspace c = false;
  isspace_space : isspace space = true;
  hyphen_class :
    isalnum hyphen = false ∧ isspace hyphen = false ∧ lower hyphen = hyphen
    ∧ nfkd hyphen = [hyphen] ∧ combining hyphen = false;
  underscore_class :
    isalnum underscore = false ∧ isspace underscore = false
    ∧ lower underscore = underscore
    ∧ nfkd underscore = [underscore] ∧ combining underscore = false;
  ascii_lowercase : ∀ c, 97 ≤ c ≤ 122 →
    isalnum c = true ∧ lower c = c ∧ nfkd c = [c] ∧ combining c = false;
  ascii_digits : ∀ c, 48 ≤ c ≤ 57 →
    isalnum c = true ∧ lower c = c ∧ nfkd c = [c] ∧ combining c = false;
}.

(** ** Regular-expression substitutions and strip *)

(** [re.sub(r"[p]", r, s)]: every character of the class becomes [r]. *)
Definition re_sub_each (p : char → bool) (r : char) (s : str) : str :=
  (λ c, if p c then r else c) <$> s.

(** [re.sub(r"[p]+", r, s)]: every maximal run of the class becomes one [r].
    [in_run] tells that the previous character was of the class. *)
Fixpoint re_sub_runs_from (p : char → bool) (r : char) (in_run : bool) (s : str) : str :=
  match s with
  | [] => []
  | c :: s' =>
      if p c then
        if in_run then re_sub_runs_from p r true s'
        else r :: re_sub_runs_from p r true s'
      else c :: re_sub_runs_from p r false s'
  end.

Definition re_sub_runs (p : char → bool) (r : char) (s : str) : str :=
  re_sub_runs_from p r false s.

Fixpoint lstrip (p : char → bool) (s : str) : str :=
  match s with
  | [] => []
  | c :: s' => if p c then lstrip p s' else s
  end.

(** [s.strip()] with [p := isspace]; [s.strip(chars)] with [p] the
    membership in [chars]. *)
Definition strip (p : char → bool) (s : str) : str :=
  reverse (lstrip p (reverse (lstrip p s))).

(** ** hashlib.md5 and str.encode("utf-8")

    32-bit words are [Z] reduced modulo [2^32]; bytes are [Z] below 256. *)

Definition w32 (x : Z) : Z := Z.land x 4294967295.
Definition rotl32 (x c : Z) : Z :=
  w32 (Z.lor (Z.shiftl x c) (Z.shiftr x (32 - c))).
Definition lnot32 (x : Z) : Z := Z.lxor x 4294967295.

Definition md5_shifts : list Z :=
  [7; 12; 17; 22; 7; 12; 17; 22; 7; 12; 17; 22; 7; 12; 17; 22;
   5; 9; 14; 20; 5; 9; 14; 20; 5; 9; 14; 20; 5; 9; 14; 20;
   4; 11; 16; 23; 4; 11; 16; 23; 4; 11; 16; 23; 4; 11; 16; 23;
   6; 10; 15; 21; 6; 10; 15; 21; 6; 10; 15; 21; 6; 10; 15; 21]%Z.

Definition md5_K : list Z :=
  [ 3614090360; 3905402710; 606105819; 3250441966; 4118548399; 1200080426;
    2821735955; 4249261313; 1770035416; 2336552879; 4294925233; 2304563134;
    1804603682; 4254626195; 2792965006; 1236535329; 4129170786; 3225465664;
    643717713; 3921069994; 3593408605; 38016083; 3634488961; 3889429448;
    568446438; 3275163606; 4107603335; 1163531501; 2850285829; 4243563512;
    1735328473; 2368359562; 4294588738; 2272392833; 1839030562; 4259657740;
    2763975236; 1272893353; 4139469664; 3200236656; 681279174; 3936430074;
    3572445317; 76029189; 3654602809; 3873151461; 530742520; 3299628645;
    4096336452; 1126891415; 2878612391; 4237533241; 1700485571; 2399980690;
    4293915773; 2240044497; 1873313359; 4264355552; 2734768916; 1309151649;
    4149444226; 3174756917; 718787259; 3951481745 ]%Z.

Definition md5_state : Type := Z * Z * Z * Z.

Definition md5_init : md5_state :=
  (1732584193, 4023233417, 2562383102, 271733878)%Z.

(** Operation [i] (0 to 63) of the compression of one block [M] of sixteen
    words. *)
Definition md5_op (M : list Z) (st : md5_state) (i : nat) : md5_state :=
  let '(A, B, C, D) := st in
  let '(F, g) :=
    if (i <? 16)%nat then
      (Z.lor (Z.land B C) (Z.land (lnot32 B) D), i)
    else if (i <? 32)%nat then
      (Z.lor (Z.land D B) (Z.land (lnot32 D) C), (5 * i + 1) `mod` 16)%nat
    else if (i <? 48)%nat then
      (Z.lxor (Z.lxor B C) D, (3 * i + 5) `mod` 16)%nat
    else
      (Z.lxor C (Z.lor B (lnot32 D)), (7 * i) `mod` 16)%nat in
  let F := w32 (F + A + md5_K !!! i + M !!! g) in
  (D, w32 (B + rotl32 F (md5_shifts !!! i)), B, C).

Definition md5_block (st : md5_state) (M : list Z) : md5_state :=
  let '(a0, b0, c0, d0) := st in
  let '(A, B, C, D) := foldl (md5_op M) st (seq 0 64) in
  (w32 (a0 + A), w32 (b0 + B), w32 (c0 + C), w32 (d0 + D)).

(** The [n] low bytes of [x], least significant first. *)
Fixpoint le_bytes (n : nat) (x : Z) : list Z :=
  match n with
  | O => []
  | S n' => Z.land x 255 :: le_bytes n' (Z.shiftr x 8)
  end.

Fixpoint le_word (bs : list Z) : Z :=
  match bs with
  | [] => 0
  | b :: bs' => b + 256 * le_word bs'
  end.

Definition md5_pad (msg : list Z) : list Z :=
  let len := Z.of_nat (length msg) in
  msg ++ [128%Z] ++ replicate (Z.to_nat ((55 - len) `mod` 64)) 0%Z
      ++ le_bytes 8 (8 * len).

(** [l] cut into pieces of [n] elements ([fuel] bounds their number). *)
Fixpoint chunks {A} (fuel n : nat) (l : list A) : list (list A) :=
  match fuel, l with
  | O, _ | _, [] => []
  | S fuel', _ => take n l :: chunks fuel' n (drop n l)
  end.

(** [hashlib.md5(msg).digest()]. *)
Definition md5_digest (msg : list Z) : list Z :=
  let padded := md5_pad msg in
  let blocks :=
    (λ b, le_word <$> chunks 16 4 b) <$> chunks (length padded) 64 padded in
  let '(a, b, c, d) := foldl md5_block md5_init blocks in
  le_bytes 4 a ++ le_bytes 4 b ++ le_bytes 4 c ++ le_bytes 4 d.

Definition hex_digit (x : Z) : char :=
  py "0123456789abcdef" !!! Z.to_nat (x `mod` 16).

Definition hex_byte (b : Z) : str := [hex_digit (b / 16); hex_digit b].

(** [s.encode("utf-8")] (surrogates, which Python refuses to encode, are
    outside the model). *)
Definition encode_utf8_char (c : char) : list Z :=
  let z := Z.of_N c in
  if (z <? 128)%Z then [z]
  else if (z <? 2048)%Z then
    [Z.lor 192 (Z.shiftr z 6); Z.lor 128 (Z.land z 63)]
  else if (z <? 65536)%Z then
    [Z.lor 224 (Z.shiftr z 12); Z.lor 128 (Z.land (Z.shiftr z 6) 63);
     Z.lor 128 (Z.land z 63)]
  else
    [Z.lor 240 (Z.shiftr z 18); Z.lor 128 (Z.land (Z.shiftr z 12) 63);
     Z.lor 128 (Z.land (Z.shiftr z 6) 63); Z.lor 128 (Z.land z 63)].

Definition encode_utf8 (s : str) : list Z := s ≫= encode_utf8_char.

(** [hashlib.md5(s.encode("utf-8")).hexdigest()]. *)
Definition md5_hexdigest (s : str) : str :=
  md5_digest (encode_utf8 s) ≫= hex_byte.

(** [s[:n]] for an int [n] of either sign. *)
Definition slice_to (n : Z) (s : str) : str :=
  if (0 <=? n)%Z then take (Z.to_nat n) s
  else take (Z.to_nat (Z.of_nat (length s) + n)) s.

Section names.
Context `{U : Unicode}.

(** ** Utilidades de nombres *)

(** [remove_accents]: NFKD reorders combining marks only among themselves,
    so dropping them from the normalised string is dropping them from the
    decomposition of each code point in turn. *)
Definition remove_accents (s : str) : str :=
  s ≫= (λ c, filter (λ d, combining d = false) (nfkd c)).

(** The class [\w]. *)
Definition is_word (c : char) : bool := isalnum c || (c =? underscore).

(** The class [[^\w\s-]]. *)
Definition not_word_space_hyphen (c : char) : bool :=
  negb (is_word c || isspace c || (c =? hyphen)).

(** The class [[-\s]]. *)
Definition hyphen_or_space (c : char) : bool := (c =? hyphen) || isspace c.

Definition is_underscore (c : char) : bool := c =? underscore.

Definition to_snake_case (s : str) : str :=
  let s := re_sub_each not_word_space_hyphen space s in
  let s := re_sub_runs hyphen_or_space underscore (lower <$> strip isspace s) in
  let s := re_sub_runs is_underscore underscore s in
  s.

(** Lines 28 to 30 of [normalize_headers]: the name of one header before
    duplicates are resolved. *)
Definition normalize (c : str) : str :=
  let name := to_snake_case (remove_accents (strip isspace c)) in
  if decide (name = []) then py "columna" else name.

(** One turn of the loop of [normalize_headers], on [(new_cols, seen)]. *)
Definition normalize_headers_step (st : list str * gmap str nat) (c : str)
    : list str * gmap str nat :=
  let '(new_cols, seen) := st in
  let name := normalize c in
  match seen !! name with
  | Some k =>
      let seen := <[name := S k]> seen in
      (new_cols ++ [name ++ underscore :: str_of_nat (S k)], seen)
  | None =>
      (new_cols ++ [name], <[name := 0%nat]> seen)
  end.

(** [normalize_headers] on the column labels of a frame. *)
Definition normalize_columns (cols : list str) : list str :=
  (foldl normalize_headers_step ([], ∅) cols).1.

(** The class of the characters Windows reserves in file names: backslash,
    slash, colon, asterisk, question mark, double quote, less-than,
    greater-than and vertical bar. *)
Definition reserved (c : char) : bool :=
  bool_decide (c ∈ [92; 47; 58; 42; 63; 34; 60; 62; 124]).

Definition space_or_dot (c : char) : bool := (c =? space) || (c =? dot).

(** The value of [base] in [safe_filename] when its length is tested. *)
Definition safe_filename_base (name : str) : str :=
  let base := to_snake_case (remove_accents name) in
  let base := strip space_or_dot (re_sub_runs reserved underscore base) in
  if decide (base = []) then py "columna" else base.

Definition safe_filename (name : str) (max_len : Z) : str :=
  let base := safe_filename_base name in
  if (Z.of_nat (length base) >? max_len)%Z then
    let h := take 8 (md5_hexdigest base) in
    slice_to (max_len - 9) base ++ underscore :: h
  else base.

End names.

(** ** An excerpt of the Unicode database

    Exact on ASCII, on the Latin-1 letters U+00C0 to U+00FF and on the seven
    combining marks these decompose into; every other code point is taken
    as a symbol (no decomposition, no case, neither alphanumeric nor blank). *)

Definition latin1_decompositions : list (N * (N * N)) :=
  [ (192, (65, 768)); (193, (65, 769)); (194, (65, 770)); (195, (65, 771));
    (196, (65, 776)); (197, (65, 778)); (199, (67, 807)); (200, (69, 768));
    (201, (69, 769)); (202, (69, 770)); (203, (69, 776)); (204, (73, 768));
    (205, (73, 769)); (206, (73, 770)); (207, (73, 776)); (209, (78, 771));
    (210, (79, 768)); (211, (79, 769)); (212, (79, 770)); (213, (79, 771));
    (214, (79, 776)); (217, (85, 768)); (218, (85, 769)); (219, (85, 770));
    (220, (85, 776)); (221, (89, 769)); (224, (97, 768)); (225, (97, 769));
    (226, (97, 770)); (227, (97, 771)); (228, (97, 776)); (229, (97, 778));
    (231, (99, 807)); (232, (101, 768)); (233, (101, 769)); (234, (101, 770));
    (235, (101, 776)); (236, (105, 768)); (237, (105, 769)); (238, (105, 770));
    (239, (105, 776)); (241, (110, 771)); (242, (111, 768)); (243, (111, 769));
    (244, (111, 770)); (245, (111, 771)); (246, (111, 776)); (249, (117, 768));
    (250, (117, 769)); (251, (117, 770)); (252, (117, 776)); (253, (121, 769));
    (255, (121, 776)) ].

Fixpoint assoc {A} (k : N) (l : list (N * A)) : option A :=
  match l with
  | [] => None
  | (k', v) :: l' => if k =? k' then Some v else assoc k l'
  end.

Definition latin1_nfkd (c : char) : str :=
  match assoc c latin1_decompositions with
  | Some (b, m) => [b; m]
  | None => [c]
  end.

Definition latin1_combining (c : char) : bool :=
  bool_decide (c ∈ [768; 769; 770; 771; 776; 778; 807]).

Definition latin1_isalnum (c : char) : bool :=
  ((48 <=? c) && (c <=? 57)) || ((65 <=? c) && (c <=? 90))
  || ((97 <=? c) && (c <=? 122))
  || ((192 <=? c) && (c <=? 255) && negb (c =? 215) && negb (c =? 247)).

Definition latin1_isspace (c : char) : bool :=
  ((9 <=? c) && (c <=? 13)) || ((28 <=? c) && (c <=? 32)).

Definition latin1_lower (c : char) : char :=
  if ((65 <=? c) && (c <=? 90))
     || ((192 <=? c) && (c <=? 222) && negb (c =? 215))
  then c + 32 else c.

#[export] Instance latin1 : Unicode := {
  nfkd := latin1_nfkd;
  combining := latin1_combining;
  isalnum := latin1_isalnum;
  isspace := latin1_isspace;
  lower := latin1_lower;
}.

(** ** pandas

    A cell read with [dtype="object"] is null ([pd.NA], [None], NaN), a
    number, or a text. A frame is its column labels and its rows, each row
    holding one cell per label. The operations below are those of pandas on
    frames whose labels are pairwise distinct ([df_wf]); frames with a
    repeated label are outside the model. *)

Inductive cell (num : Type) : Type :=
  | NA
  | Num (x : num)
  | Text (s : str).
Arguments NA {num}.
Arguments Num {num} x.
Arguments Text {num} s.

Record DataFrame (num : Type) : Type := mkDataFrame {
  columns : list str;
  rows : list (list (cell num));
}.
Arguments mkDataFrame {num} columns rows.
Arguments columns {num} d.
Arguments rows {num} d.

Record df_wf {num} (df : DataFrame num) : Prop := {
  wf_labels : NoDup (columns df);
  wf_rows : Forall (λ r, length r = length (columns df)) (rows df);
}.

(** What [pd.to_numeric(..., errors="coerce")] makes of a text ([None] is
    NaN), and the test [x % 1 == 0] on a number. *)
Class Numeric (num : Type) := {
  parse_number : str → option num;
  mod1_is_zero : num → bool;
}.

Section frames.
Context {num : Type}.

Definition label_index (c : str) (cols : list str) : option nat :=
  fst <$> list_find (λ c', c' = c) cols.

(** The cell of row [r] under label [c]; null when the frame has no such
    label. *)
Definition row_cell (cols : list str) (r : list (cell num)) (c : str) : cell num :=
  match label_index c cols with
  | Some i => default NA (r !! i)
  | None => NA
  end.

(** [df[c]], a Series. *)
Definition df_getitem (df : DataFrame num) (c : str) : list (cell num) :=
  (λ r, row_cell (columns df) r c) <$> rows df.

(** [df[c] = v] for a scalar [v]: overwrites the column, or appends it. *)
Definition df_setitem (df : DataFrame num) (c : str) (v : cell num) : DataFrame num :=
  match label_index c (columns df) with
  | Some i => mkDataFrame (columns df) ((λ r, <[i := v]> r) <$> rows df)
  | None => mkDataFrame (columns df ++ [c]) ((λ r, r ++ [v]) <$> rows df)
  end.

(** [df.reindex(columns=cols)]; it is [df[cols]] when every label of [cols]
    is a column of [df], the only use [unify_sheets] makes of [df[cols]]. *)
Definition df_reindex (df : DataFrame num) (cols : list str) : DataFrame num :=
  mkDataFrame cols ((λ r, row_cell (columns df) r <$> cols) <$> rows df).

(** The labels of several frames in the order they first appear. *)
Definition union_labels (dfs : list (DataFrame num)) : list str :=
  foldl (λ acc c, if decide (c ∈ acc) then acc else acc ++ [c]) [] (dfs ≫= columns).

(** [pd.concat(dfs, ignore_index=True)]; [None] is the ValueError raised
    when there is nothing to concatenate. *)
Definition pd_concat (dfs : list (DataFrame num)) : option (DataFrame num) :=
  match dfs with
  | [] => None
  | _ =>
      let cols := union_labels dfs in
      Some (mkDataFrame cols (dfs ≫= (λ df, rows (df_reindex df cols))))
  end.

(** A dict in insertion order: [d[k] = v]. *)
Fixpoint dict_set {V} (k : str) (v : V) (d : list (str * V)) : list (str * V) :=
  match d with
  | [] => [(k, v)]
  | (k', v') :: d' =>
      if decide (k' = k) then (k, v) :: d' else (k', v') :: dict_set k v d'
  end.

(** ** Carga Excel *)

Inductive event :=
  | EvOpen (path : str)
  | EvReadSheet (path sheet : str).

Inductive exn :=
  | ValueError_sheets_cfg
  | ExcelFileError
  | ReadExcelError.

(** A computation that does file I/O: the events it performed, in order,
    and the exception it raised or the value it returned. *)
Definition io (A : Type) : Type := list event * (exn + A).

Definition io_ret {A} (x : A) : io A := ([], inr x).
Definition io_raise {A} (e : exn) : io A := ([], inl e).
Definition io_bind {A B} (m : io A) (f : A → io B) : io B :=
  match m with
  | (t, inl e) => (t, inl e)
  | (t, inr x) => let '(t', r) := f x in (t ++ t', r)
  end.

(** The files: [excel_files path] is the workbook at [path], its sheets in
    file order, or [None] where [pd.ExcelFile(path)] raises (no such file,
    not a spreadsheet). *)
Definition filesystem : Type := str → option (list (str * DataFrame num)).

Definition pd_ExcelFile (fs : filesystem) (path : str)
    : io (list (str * DataFrame num)) :=
  match fs path with
  | Some xls => ([EvOpen path], inr xls)
  | None => ([EvOpen path], inl ExcelFileError)
  end.

Definition pd_read_excel (fs : filesystem) (path sheet : str)
    : io (DataFrame num) :=
  match fs path ≫= (λ xls, snd <$> list_find (λ e, e.1 = sheet) xls) with
  | Some e => ([EvReadSheet path sheet], inr e.2)
  | None => ([EvReadSheet path sheet], inl ReadExcelError)
  end.

(** The values [sheets_cfg] can take: a str, a list of sheet names, or any
    other object. *)
Inductive sheets_cfg :=
  | CfgStr (s : str)
  | CfgList (sheets : list str)
  | CfgOther.

Fixpoint read_sheets (fs : filesystem) (path : str) (sheets : list str)
    (frames : list (str * DataFrame num)) : io (list (str * DataFrame num)) :=
  match sheets with
  | [] => io_ret frames
  | sh :: sheets' =>
      io_bind (pd_read_excel fs path sh) (λ df,
      read_sheets fs path sheets' (dict_set sh df frames))
  end.

Definition read_excel_all_sheets (fs : filesystem) (path : str) (cfg : sheets_cfg)
    : io (list (str * DataFrame num)) :=
  io_bind (pd_ExcelFile fs path) (λ xls,
  io_bind
    (match cfg with
     | CfgStr s =>
         if decide (s = py "all") then io_ret (fst <$> xls)
         else io_raise ValueError_sheets_cfg
     | CfgList sheets => io_ret sheets
     | CfgOther => io_raise ValueError_sheets_cfg
     end) (λ sheets,
  read_sheets fs path sheets [])).

(** ** Unificacion *)

Context `{U : Unicode}.

Definition normalize_headers (df : DataFrame num) : DataFrame num :=
  mkDataFrame (normalize_columns (columns df)) (rows df).

(** [list(all_cols)]: the order in which Python lists a set is not fixed,
    so it is a parameter. *)
Variable list_of_set : gset str → list str.

Definition add_missing (tmp : DataFrame num) (c : str) : DataFrame num :=
  if decide (c ∈ columns tmp) then tmp else df_setitem tmp c NA.

(** The body of the second loop of [unify_sheets]. *)
Definition align (all_cols : list str) (sh : str) (df : DataFrame num) : DataFrame num :=
  let tmp := foldl add_missing df all_cols in
  let tmp := df_reindex tmp all_cols in
  df_setitem tmp (py "_sheet") (Text sh).

Definition all_columns (frames_norm : list (str * DataFrame num)) : gset str :=
  foldl (λ all_cols e, all_cols ∪ list_to_set (columns e.2)) ∅ frames_norm.

Definition unify_sheets (frames : list (str * DataFrame num)) : option (DataFrame num) :=
  let frames_norm := (λ e, (e.1, normalize_headers e.2)) <$> frames in
  let all_cols := list_of_set (all_columns frames_norm) in
  let aligned := (λ e, align all_cols e.1 e.2) <$> frames_norm in
  pd_concat aligned.

(** ** Tipado simple *)

Context `{Nm : Numeric num}.

Definition notna (v : cell num) : bool :=
  match v with NA => false | _ => true end.

Definition to_numeric (v : cell num) : option num :=
  match v with
  | NA => None
  | Num x => Some x
  | Text t => parse_number t
  end.

(** [xs[mask]] for a boolean mask. *)
Definition masked {A} (xs : list A) (mask : list bool) : list A :=
  fst <$> filter (λ e, e.2 = true) (zip xs mask).

Definition is_number (o : option num) : bool :=
  match o with Some _ => true | None => false end.

(** [x % 1 == 0] on an element of [nums]; NaN fails the comparison. *)
Definition whole (o : option num) : bool :=
  match o with Some x => mod1_is_zero x | None => false end.

(** The body of the loop of [build_simple_dtypes] for the column labelled
    [c] with values [s]. *)
Definition infer_dtype (c : str) (s : list (cell num)) : str :=
  if decide (c = py "_sheet") then py "string"
  else if decide (filter (λ v, notna v = true) s = []) then py "string"
  else
    let nums := to_numeric <$> s in
    let mask := notna <$> s in
    let all_numeric := forallb is_number (masked nums mask) in
    if all_numeric then
      if forallb whole (masked nums mask) then py "int" else py "float"
    else py "string".

Definition build_simple_dtypes (df : DataFrame num) : gmap str str :=
  foldl (λ overrides c, <[c := infer_dtype c (df_getitem df c)]> overrides)
        ∅ (columns df).

End frames.

(** Numbers as rationals, with the plain decimal notation ([12], [-3],
    [2.50]) as the fragment of what pandas parses. *)

Definition is_digit (c : char) : bool := (48 <=? c) && (c <=? 57).

Fixpoint digits_value (acc : N) (s : str) : N :=
  match s with
  | [] => acc
  | c :: s' => digits_value (10 * acc + (c - 48)) s'
  end.

Fixpoint take_digits (s : str) : str * str :=
  match s with
  | [] => ([], [])
  | c :: s' =>
      if is_digit c then let '(ds, rest) := take_digits s' in (c :: ds, rest)
      else ([], s)
  end.

Definition parse_decimal (s : str) : option Q :=
  let '(sign, s) :=
    match s with
    | c :: s' => if c =? hyphen then ((-1)%Z, s') else (1%Z, s)
    | [] => (1%Z, s)
    end in
  let '(ip, rest) := take_digits s in
  match ip, rest with
  | _ :: _, [] => Some (inject_Z (sign * Z.of_N (digits_value 0 ip)))
  | _ :: _, d :: fp =>
      if (d =? dot) && forallb is_digit fp && negb (bool_decide (fp = [])) then
        Some (Qmake (sign * Z.of_N (digits_value 0 (ip ++ fp)))
                    (Pos.pow 10 (Pos.of_nat (length fp))))
      else None
  | _, _ => None
  end.

#[export] Instance rationals : Numeric Q := {
  parse_number := parse_decimal;
  mod1_is_zero := λ q, (Qden (Qred q) =? 1)%positive;
}.

(** ** Notions used in the statements and proofs *)

(** No two neighbours of [s] are both of the class [p]. *)
Fixpoint sparse (p : char → bool) (s : str) : Prop :=
  match s with
  | [] => True
  | c :: s' =>
      match s' with
      | [] => True
      | d :: _ => ¬ (p c = true ∧ p d = true)
      end ∧ sparse p s'
  end.

Definition head_outside (p : char → bool) (s : str) : Prop :=
  match s with [] => True | c :: _ => p c = false end.

Section name_notions.
Context `{U : Unicode}.

(** NFKD leaves [c] alone and [c] is no combining mark. *)
Definition decomposed (c : char) : Prop := nfkd c = [c] ∧ combining c = false.

(** [c] is a combining mark or decomposes into one. *)
Definition accented (c : char) : bool := combining c || existsb combining (nfkd c).

(** An underscore, or a decomposed lowercase alphanumeric character. *)
Definition name_char (c : char) : Prop :=
  c = underscore ∨ (isalnum c = true ∧ lower c = c ∧ decomposed c).

(** An alphanumeric character that NFKD leaves alone. *)
Definition plain (c : char) : Prop := isalnum c = true ∧ decomposed c.

End name_notions.

(** How often [name] occurs in [names]. *)
Definition occurrences (name : str) (names : list str) : nat :=
  length (filter (λ n, n = name) names).

(** The name given to an occurrence of [name] that [k] others precede. *)
Definition numbered (name : str) (k : nat) : str :=
  match k with
  | O => name
  | S _ => name ++ underscore :: str_of_nat k
  end.

(** The names of [names] in turn, [seen] being the names before them. *)
Fixpoint resolve (seen names : list str) : list str :=
  match names with
  | [] => []
  | n :: names' => numbered n (occurrences n seen) :: resolve (seen ++ [n]) names'
  end.

(** The dict [seen] after the headers named [pre]: a name maps to the number
    of its occurrences after the first. *)
Definition counts (seen : gmap str nat) (pre : list str) : Prop :=
  ∀ name, seen !! name
          = match occurrences name pre with O => None | S k => Some k end.

Section frame_notions.
Context {num : Type}.

(** The labels the first loop of [align] adds to a frame with labels
    [cols]. *)
Fixpoint missing (cols l : list str) : list str :=
  match l with
  | [] => []
  | c :: l' =>
      if decide (c ∈ cols) then missing cols l'
      else c :: missing (cols ++ [c]) l'
  end.

(** The labels of an aligned frame: those of [all_cols], and [_sheet]. *)
Definition sheet_labels (all_cols : list str) : list str :=
  if decide (py "_sheet" ∈ all_cols) then all_cols
  else all_cols ++ [py "_sheet"].

(** The row of the master table made from the row [r] of the sheet [sh]
    whose labels are [cols]. *)
Definition master_row (labels : list str) (sh : str) (cols : list str)
    (r : list (cell num)) : list (cell num) :=
  (λ c, if decide (c = py "_sheet") then Text sh else row_cell cols r c)
  <$> labels.

(** One label more for [union_labels], when it is new. *)
Definition add_label (acc : list str) (c : str) : list str :=
  if decide (c ∈ acc) then acc else acc ++ [c].

Context `{U : Unicode}.
Variable list_of_set : gset str → list str.

(** The labels of the master table of [frames]. *)
Definition master_labels (frames : list (str * DataFrame num)) : list str :=
  sheet_labels
    (list_of_set (all_columns ((λ e, (e.1, normalize_headers e.2)) <$> frames))).

(** The sheets as [unify_sheets] can take them: after normalisation, the
    labels of a sheet are pairwise distinct and its rows hold a cell per
    label. *)
Definition sheets_wf (frames : list (str * DataFrame num)) : Prop :=
  Forall (λ e, df_wf (normalize_headers e.2)) frames.

End frame_notions.

(** A directory with the one workbook [datos.xlsx], of one sheet. *)
Definition one_workbook : @filesystem Q :=
  λ path,
    if decide (path = py "datos.xlsx") then
      Some [(py "Hoja1", mkDataFrame [py "ID"] [[Num 1%Q]])]
    else None.

(** Two sheets, the first with a header [_sheet]. *)
Definition two_sheets : list (str * DataFrame Q) :=
  [ (py "A", mkDataFrame [py "_sheet"; py "x"] [[Text (py "v"); Num 1%Q]]);
    (py "B", mkDataFrame [py "X"; py "Edad"] [[Num 2%Q; Num 30%Q]]) ].

(** Well-formedness of explicit sheets, by evaluation. *)
Ltac sheets_wf_by_evaluation :=
  repeat (apply Forall_cons; split; [split; simpl; [compute_done|]|]);
  repeat constructor.

(** ** Tipado: apply_dtypes

    [number_str x] is [str(x)], what [astype("string")] makes of a number;
    [to_Int64 x] is the value [astype("Int64")] gives, [None] where the
    cast raises (a number with a fractional part, or out of range). *)
Class Casting (num : Type) := {
  number_str : num → str;
  to_Int64 : num → option num;
}.

Section apply.
Context {num : Type} `{Nm : Numeric num} `{Cs : Casting num}.

(** [df[c] = s] for a Series [s] with one value per row: overwrites the
    column, or appends it. *)
Definition df_setcol (df : DataFrame num) (c : str) (s : list (cell num))
    : DataFrame num :=
  match label_index c (columns df) with
  | Some i => mkDataFrame (columns df) (zip_with (λ r v, <[i := v]> r) (rows df) s)
  | None => mkDataFrame (columns df ++ [c]) (zip_with (λ r v, r ++ [v]) (rows df) s)
  end.

(** [s.astype("string")]: nulls stay null. *)
Definition astype_string (s : list (cell num)) : list (cell num) :=
  (λ v, match v with
        | NA => NA
        | Num x => Text (number_str x)
        | Text t => Text t
        end) <$> s.

(** [pd.to_numeric(s, errors="coerce")] as a column: what does not parse
    becomes null. *)
Definition to_numeric_coerce (s : list (cell num)) : list (cell num) :=
  (λ v, match to_numeric v with Some x => Num x | None => NA end) <$> s.

(** [s.astype("Int64")] on a numeric column; [None] when it raises. *)
Definition astype_Int64 (s : list (cell num)) : option (list (cell num)) :=
  mapM (λ v, match v with
             | Num x => Num <$> to_Int64 x
             | _ => Some v
             end) s.

(** The body of the [try] of [apply_dtypes] with its [except], for a column
    [s] and its tag [t]. *)
Definition apply_dtype (t : str) (s : list (cell num)) : list (cell num) :=
  if decide (t = py "string") then astype_string s
  else if decide (t = py "int") then
    match astype_Int64 (to_numeric_coerce s) with
    | Some s' => s'
    | None => astype_string s
    end
  else if decide (t = py "float") then to_numeric_coerce s
  else astype_string s.

(** One turn of the loop of [apply_dtypes]. *)
Definition apply_dtypes_step (out : DataFrame num) (e : str * str) : DataFrame num :=
  if decide (e.1 ∈ columns out) then
    df_setcol out e.1 (apply_dtype e.2 (df_getitem out e.1))
  else out.

Definition apply_dtypes (df : DataFrame num) (dtypes : gmap str str) : DataFrame num :=
  foldl apply_dtypes_step df (map_to_list dtypes).

(** Lines 183 to 187 of [main]: the table that is exported. *)
Definition typed_master `{U : Unicode} (list_of_set : gset str → list str)
    (frames : list (str * DataFrame num)) : option (DataFrame num) :=
  master ← unify_sheets list_of_set frames;
  Some (apply_dtypes master (build_simple_dtypes master)).

End apply.

(** Rationals: whole numbers print as Python prints an int and cast to
    Int64 when they fit 64 bits; other numbers print with their decimal
    digits when these end, and as a quotient otherwise. *)

Definition str_of_Z (z : Z) : str := py (pretty z).

(** The digits of [r / d] after the point ([0 <= r < d]); [None] when they
    do not end within [fuel] digits. *)
Fixpoint fraction_digits (fuel : nat) (r d : Z) : option str :=
  if (r =? 0)%Z then Some []
  else
    match fuel with
    | O => None
    | S fuel' =>
        (λ ds, Z.to_N (48 + (10 * r) / d) :: ds)
        <$> fraction_digits fuel' ((10 * r) `mod` d) d
    end.

Definition rational_str (q : Q) : str :=
  let n := Qnum (Qred q) in
  let d := Z.pos (Qden (Qred q)) in
  if (d =? 1)%Z then str_of_Z n
  else
    match fraction_digits 64 (Z.abs n `mod` d) d with
    | Some ds =>
        (if (n <? 0)%Z then [hyphen] else [])
        ++ str_of_Z (Z.abs n / d) ++ dot :: ds
    | None => str_of_Z n ++ 47 :: str_of_Z d
    end.

Definition rational_to_Int64 (q : Q) : option Q :=
  let n := Qnum (Qred q) in
  if ((Qden (Qred q) =? 1)%positive
      && (- 2 ^ 63 <=? n)%Z && (n <? 2 ^ 63)%Z)%bool
  then Some (inject_Z n) else None.

#[export] Instance rationals_casting : Casting Q := {
  number_str := rational_str;
  to_Int64 := rational_to_Int64;
}.

(** ** Exportaciones: the file names of export_columns_csvs *)

Section export.
Context `{U : Unicode}.

(** The [while] loop: [used] are the names given in this run, [files] the
    names [n] for which [n.csv] exists in the directory; [fuel] bounds the
    number of turns. *)
Fixpoint free_candidate (fuel : nat) (used files : gset str)
    (fname candidate : str) (i : nat) : option str :=
  match fuel with
  | O => None
  | S fuel' =>
      if decide (candidate ∈ used ∨ candidate ∈ files) then
        let i := S i in
        free_candidate fuel' used files fname
          (fname ++ underscore :: str_of_nat i) i
      else Some candidate
  end.

(** One turn of the loop over the columns, on the names given so far, with
    [used] and [files]: a name is chosen, recorded and its file written. The
    loop of the source has no bound; one turn more than there are names to
    avoid is enough. *)
Definition export_column_step
    (st : option (list str * gset str * gset str)) (col : str)
    : option (list str * gset str * gset str) :=
  '(names, used, files) ← st;
  let fname := safe_filename col 100 in
  candidate ← free_candidate (S (size (used ∪ files))) used files fname fname 1;
  Some (names ++ [candidate], {[candidate]} ∪ used, {[candidate]} ∪ files).

(** The names of the files [export_columns_csvs] writes for the columns
    [cols], in order, [files] being there before. *)
Definition export_columns_names (files : gset str) (cols : list str)
    : option (list str) :=
  (λ st, st.1.1) <$> foldl export_column_step (Some ([], ∅, files)) cols.

End export.

(** The name tried in turn [i] of the [while] loop (turns count from 1). *)
Definition candidate_name (fname : str) (i : nat) : str :=
  match i with
  | 1%nat => fname
  | _ => fname ++ underscore :: str_of_nat i
  end.

(** A directory with the one workbook [libro.xlsx], holding [two_sheets]. *)
Definition two_sheet_workbook : @filesystem Q :=
  λ path, if decide (path = py "libro.xlsx") then Some two_sheets else None.

(** What a typed column holds: no number among its cells, or no text. *)
Definition no_number {num} (v : cell num) : bool :=
  match v with Num _ => false | _ => true end.

Definition no_text {num} (v : cell num) : bool :=
  match v with Text _ => false | _ => true end.

(** A table of two rows: a column of numbers, one as a text; a column with
    a null; a column of a number and a word. *)
Definition marks_table : DataFrame Q :=
  mkDataFrame [py "a"; py "b"; py "c"]
    [ [Num 1%Q; Text (py "2.5"); Num 7%Q];
      [Text (py "2"); NA; Text (py "x")] ].

(** Well-formedness of an explicit table, by evaluation. *)
Ltac df_wf_by_evaluation :=
  split; simpl; [compute_done|repeat constructor].

(** ** Exportaciones: the table written for a column

    A value of the dict passed to [pd.DataFrame]: the index of a table of
    [n] rows, or the cells of a column. *)
Inductive series (num : Type) : Type :=
  | RowIndex (n : nat)
  | Column (s : list (cell num)).
Arguments RowIndex {num} n.
Arguments Column {num} s.

(** The dict [{"row_index": df.index, col: df[col]}], in insertion order. *)
Definition column_frame {num} (df : DataFrame num) (col : str)
    : list (str * series num) :=
  dict_set col (Column (df_getitem df col))
    (dict_set (py "row_index") (RowIndex (length (rows df))) []).

(** * Properties *)

(** ** The model on small inputs *)

Example normalize_numero_cliente :
  normalize (py "N" ++ [250] ++ py "mero Cliente") = py "numero_cliente".
Proof. vm_compute. reflexivity. Qed.

Example normalize_empty : normalize [] = py "columna".
Proof. vm_compute. reflexivity. Qed.

Example normalize_headers_total :
  normalize_columns [py "Total"; py "total"; py "Total"]
  = [py "total"; py "total_1"; py "total_2"].
Proof. vm_compute. reflexivity. Qed.

Example normalize_headers_clash :
  normalize_columns [py "a"; py "A"; py "a_1"] = [py "a"; py "a_1"; py "a_1"].
Proof. vm_compute. reflexivity. Qed.

Example normalize_hyphen : normalize (py "-a") = py "_a".
Proof. vm_compute. reflexivity. Qed.

Example md5_empty : md5_hexdigest [] = py "d41d8cd98f00b204e9800998ecf8427e".
Proof. vm_compute. reflexivity. Qed.

Example md5_abc : md5_hexdigest (py "abc") = py "900150983cd24fb0d6963f7d28e17f72".
Proof. vm_compute. reflexivity. Qed.

Example md5_two_blocks :
  md5_hexdigest (py "12345678901234567890123456789012345678901234567890123456789012345678901234567890")
  = py "57edf4a22be3c955ac49da2e2107b67a".
Proof. vm_compute. reflexivity. Qed.

Example md5_utf8 :
  md5_hexdigest (py "n" ++ [250] ++ py "mero") = py "9441fcf2c58eb467acdc177087f5fb15".
Proof. vm_compute. reflexivity. Qed.

Example safe_filename_short : safe_filename (py "abcdefgh") 5 = py "abcd_e8dc4081".
Proof. vm_compute. reflexivity. Qed.

Example safe_filename_12 : safe_filename (py "abcdefghijkl") 10 = py "a_9fc9d606".
Proof. vm_compute. reflexivity. Qed.

Example infer_int :
  infer_dtype (py "x") [Num 1%Q; Num 2%Q; Text (py "3")] = py "int".
Proof. vm_compute. reflexivity. Qed.

Example infer_float :
  infer_dtype (py "x") [Num 1%Q; Text (py "2.5"); NA; Num 3%Q] = py "float".
Proof. vm_compute. reflexivity. Qed.

Example infer_string :
  infer_dtype (py "x") [Num 1%Q; Text (py "a"); Num 3%Q] = py "string".
Proof. vm_compute. reflexivity. Qed.

Example infer_all_null : infer_dtype (py "x") [@NA Q; NA] = py "string".
Proof. vm_compute. reflexivity. Qed.



(** ** Substitutions and strip *)

Section regex.
Implicit Types (p : char → bool) (r c : char) (s : str).

Lemma re_sub_each_Forall (P : char → Prop) p r s :
  (∀ c, c ∈ s → p c = false → P c) → (∀ c, c ∈ s → p c = true → P r) →
  Forall P (re_sub_each p r s).
Proof.
  intros Hkeep Hrepl. unfold re_sub_each. apply Forall_fmap, Forall_forall.
  intros c Hc. simpl. destruct (p c) eqn:E; eauto.
Qed.

Lemma re_sub_each_id p r s :
  Forall (λ c, p c = false) s → re_sub_each p r s = s.
Proof.
  induction 1 as [|c s Hc _ IH]; [done|].
  unfold re_sub_each in *. csimpl. rewrite Hc. by f_equal.
Qed.

Lemma re_sub_runs_from_Forall (P : char → Prop) p r b s :
  P r → Forall (λ c, p c = false → P c) s →
  Forall P (re_sub_runs_from p r b s).
Proof.
  intros Hr Hs. revert b.
  induction Hs as [|c s Hc _ IH]; intros b; simpl; [constructor|].
  destruct (p c) eqn:E; [destruct b|]; auto.
Qed.

(** A substitution of runs leaves the replacement and the characters
    outside the class. *)
Lemma re_sub_runs_from_chars p r b s :
  Forall (λ c, c = r ∨ (p c = false ∧ c ∈ s)) (re_sub_runs_from p r b s).
Proof.
  revert b. induction s as [|c s IH]; intros b; simpl; [constructor|].
  assert (∀ b', Forall (λ c0, c0 = r ∨ p c0 = false ∧ c0 ∈ c :: s)
                  (re_sub_runs_from p r b' s)) as IH'.
  { intros b'. eapply Forall_impl; [apply IH|]. intros c0 [->|[? ?]]; auto.
    right. split; auto. apply elem_of_cons. by right. }
  destruct (p c) eqn:E; [destruct b|]; auto.
  constructor; auto. right. split; [done|]. apply elem_of_cons. by left.
Qed.

Lemma re_sub_runs_chars p r s :
  Forall (λ c, c = r ∨ (p c = false ∧ c ∈ s)) (re_sub_runs p r s).
Proof. apply re_sub_runs_from_chars. Qed.

Lemma re_sub_runs_from_sparse p r b s :
  sparse p (re_sub_runs_from p r b s)
  ∧ (b = true → head_outside p (re_sub_runs_from p r b s)).
Proof.
  revert b. induction s as [|c s IH]; intros b; simpl; [done|].
  destruct (p c) eqn:E.
  - destruct (IH true) as [Hsp Hhd]. specialize (Hhd eq_refl).
    destruct b; [done|]. split; [|done]. simpl. split; [|done].
    destruct (re_sub_runs_from p r true s) as [|d ?]; [done|].
    simpl in Hhd. intros [_ ?]. congruence.
  - destruct (IH false) as [Hsp _]. split; [|done]. simpl. split; [|done].
    destruct (re_sub_runs_from p r false s); [done|]. intros [? _]. congruence.
Qed.

Lemma re_sub_runs_sparse p r s : sparse p (re_sub_runs p r s).
Proof. apply re_sub_runs_from_sparse. Qed.

Lemma re_sub_runs_from_id p r b s :
  Forall (λ c, p c = false) s → re_sub_runs_from p r b s = s.
Proof.
  intros Hs. revert b. induction Hs as [|c s Hc _ IH]; intros b; simpl; [done|].
  by rewrite Hc, IH.
Qed.

(** A string whose runs are already single replacements is left alone. *)
Lemma re_sub_runs_from_sparse_id p r b s :
  sparse p s → Forall (λ c, p c = true → c = r) s →
  (b = true → head_outside p s) →
  re_sub_runs_from p r b s = s.
Proof.
  revert b. induction s as [|c s IH]; intros b Hsp Hr Hhd; simpl; [done|].
  simpl in Hsp. destruct Hsp as [Hcd Hsp].
  apply Forall_cons in Hr as [Hc Hr].
  destruct (p c) eqn:E.
  - destruct b; [specialize (Hhd eq_refl); simpl in Hhd; congruence|].
    rewrite (Hc eq_refl). f_equal. apply IH; auto.
    intros _. destruct s as [|d s]; simpl; [done|].
    destruct (p d) eqn:E'; [|done]. by destruct Hcd.
  - f_equal. apply IH; auto. done.
Qed.

Lemma sparse_lookup p s i c d :
  sparse p s → s !! i = Some c → s !! S i = Some d →
  ¬ (p c = true ∧ p d = true).
Proof.
  revert i. induction s as [|a s IH]; intros i Hsp Hc Hd; [done|].
  simpl in Hsp. destruct Hsp as [Had Hsp]. destruct i as [|i].
  - simpl in Hc, Hd. destruct s as [|b s]; [done|]. simpl in Hd. congruence.
  - simpl in Hc, Hd. eauto.
Qed.

Lemma lstrip_app_l p ws s :
  Forall (λ c, p c = true) ws → lstrip p (ws ++ s) = lstrip p s.
Proof. induction 1 as [|c ws Hc _ IH]; simpl; [done|]. by rewrite Hc. Qed.

Lemma lstrip_suffix p s : ∃ ws, s = ws ++ lstrip p s.
Proof.
  induction s as [|c s [ws IH]]; simpl; [by exists []|].
  destruct (p c); [|by exists []]. exists (c :: ws). simpl. by f_equal.
Qed.

Lemma lstrip_head p s : head_outside p (lstrip p s).
Proof.
  induction s as [|c s IH]; simpl; [done|]. by destruct (p c) eqn:E.
Qed.

Lemma lstrip_id p s : head_outside p s → lstrip p s = s.
Proof. destruct s as [|c s]; simpl; [done|]. by intros ->. Qed.

Lemma lstrip_app_r p s t :
  lstrip p s ≠ [] → lstrip p (s ++ t) = lstrip p s ++ t.
Proof.
  induction s as [|c s IH]; simpl; [done|]. destruct (p c); auto.
Qed.

Lemma lstrip_all p s : Forall (λ c, p c = true) s → lstrip p s = [].
Proof. induction 1 as [|c s Hc _ IH]; simpl; [done|]. by rewrite Hc. Qed.

Lemma strip_Forall (P : char → Prop) p s : Forall P s → Forall P (strip p s).
Proof.
  intros Hs. unfold strip. apply Forall_reverse.
  destruct (lstrip_suffix p (reverse (lstrip p s))) as [ws Hws].
  assert (Forall P (reverse (lstrip p s))) as HF.
  { apply Forall_reverse. destruct (lstrip_suffix p s) as [ws' Hws'].
    rewrite Hws' in Hs. by apply Forall_app in Hs as [_ ?]. }
  rewrite Hws in HF. by apply Forall_app in HF as [_ ?].
Qed.

Lemma strip_id p s : Forall (λ c, p c = false) s → strip p s = s.
Proof.
  intros Hs. unfold strip.
  rewrite (lstrip_id p s) by (destruct Hs; done).
  rewrite lstrip_id, reverse_involutive; [done|].
  apply Forall_reverse in Hs. destruct Hs; done.
Qed.

(** Blanks around a string do not change what [strip] returns. *)
Lemma strip_app p ws s ws' :
  Forall (λ c, p c = true) ws → Forall (λ c, p c = true) ws' →
  strip p (ws ++ s ++ ws') = strip p s.
Proof.
  intros Hws Hws'. unfold strip. rewrite lstrip_app_l by done. f_equal.
  destruct (decide (lstrip p s = [])) as [E|E].
  - rewrite E. simpl. destruct (lstrip_suffix p s) as [v Hv].
    rewrite E, app_nil_r in Hv. subst v.
    assert (Forall (λ c, p c = true) s) as Hs.
    { clear -E. induction s as [|c s IH]; [done|]. simpl in E.
      destruct (p c) eqn:Ec; [|done]. constructor; auto. }
    rewrite (lstrip_all p (s ++ ws')); [by rewrite reverse_nil|].
    by apply Forall_app.
  - rewrite lstrip_app_r by done. rewrite reverse_app.
    apply lstrip_app_l. by apply Forall_reverse.
Qed.

End regex.

(** ** The characters of a normalised name *)

Section name_props.
Context `{U : Unicode}.

Context {L : UnicodeLaws U}.

Lemma remove_accents_decomposed s : Forall decomposed (remove_accents s).
Proof.
  apply Forall_forall. intros d Hd. unfold remove_accents in Hd.
  apply list_elem_of_bind in Hd as (c & Hd & _).
  apply list_elem_of_filter in Hd as [Hcomb Hd].
  split; [by eapply nfkd_stable|done].
Qed.

Lemma remove_accents_id s : Forall decomposed s → remove_accents s = s.
Proof.
  induction 1 as [|c s [Hn Hc] _ IH]; [done|].
  unfold remove_accents in *. csimpl. rewrite Hn, IH.
  by rewrite filter_cons, decide_True.
Qed.

Lemma name_char_facts c :
  name_char c →
  is_word c = true ∧ lower c = c ∧ decomposed c
  ∧ isspace c = false ∧ c ≠ hyphen ∧ c ≠ space.
Proof.
  pose proof underscore_class as (_ & Hus & Hul & Hun & Huc).
  pose proof hyphen_class as (Hha & _).
  pose proof isspace_space as Hsp.
  unfold is_word, decomposed. intros [->|(Ha & Hl & Hn & Hc)].
  - rewrite N.eqb_refl, orb_true_r. repeat split; try done; congruence.
  - rewrite Ha. pose proof (isalnum_not_isspace c Ha).
    repeat split; try done; congruence.
Qed.

(** The characters [to_snake_case] lowers: blanks, hyphens, underscores
    and decomposed alphanumerics. *)
Lemma to_snake_case_chars s :
  Forall decomposed s → Forall name_char (to_snake_case s).
Proof.
  intros Hs.
  pose proof underscore_class as (_ & Hus & Hul & Hun & Huc).
  pose proof hyphen_class as (_ & _ & Hhl & _).
  unfold to_snake_case.
  apply re_sub_runs_from_Forall; [by left|].
  apply Forall_forall. intros c Hc _. revert c Hc. apply Forall_forall.
  apply re_sub_runs_from_Forall; [by left|].
  apply Forall_fmap, strip_Forall.
  apply re_sub_each_Forall.
  - intros c Hc Hkeep. simpl. rewrite Forall_forall in Hs.
    specialize (Hs c Hc) as Hd.
    unfold not_word_space_hyphen, is_word in Hkeep.
    apply negb_false_iff in Hkeep. unfold hyphen_or_space.
    destruct (isspace c) eqn:Esp.
    { rewrite (lower_isspace c Esp), Esp, orb_true_r. done. }
    destruct (c =? hyphen) eqn:Eh.
    { apply N.eqb_eq in Eh. subst c. rewrite Hhl, N.eqb_refl. done. }
    destruct (c =? underscore) eqn:Eu.
    { apply N.eqb_eq in Eu. subst c. rewrite Hul. intros _. by left. }
    rewrite !orb_false_r in Hkeep. destruct Hd as [Hn Hcomb].
    destruct (lower_decomposed c Hn Hcomb Hkeep) as (? & ? & ? & ?).
    intros _. right. repeat split; done.
  - intros _ _ _. simpl. unfold hyphen_or_space.
    rewrite (lower_isspace space isspace_space), isspace_space, orb_true_r.
    done.
Qed.

Lemma to_snake_case_sparse s : sparse is_underscore (to_snake_case s).
Proof. apply re_sub_runs_sparse. Qed.

Lemma py_columna_chars : Forall name_char (py "columna").
Proof.
  assert (∀ c, 97 ≤ c ≤ 122 → name_char c) as Hlow.
  { intros c Hc. right. destruct (ascii_lowercase c Hc) as (? & ? & ? & ?).
    repeat split; done. }
  simpl py. repeat (apply Forall_cons; split; [apply Hlow; simpl; lia|]).
  constructor.
Qed.

Lemma name_chars_lower s : Forall name_char s → lower <$> s = s.
Proof.
  induction 1 as [|c s Hc _ IH]; [done|]. csimpl.
  destruct (name_char_facts c Hc) as (_ & -> & _). by f_equal.
Qed.

(** A name made of name characters, with no two underscores in a row, is
    what [to_snake_case] returns for it. *)
Lemma to_snake_case_fixed s :
  Forall name_char s → sparse is_underscore s → to_snake_case s = s.
Proof.
  intros Hs Hsp. unfold to_snake_case.
  assert (Forall (λ c, not_word_space_hyphen c = false) s) as H1.
  { eapply Forall_impl; [exact Hs|]. intros c Hc.
    destruct (name_char_facts c Hc) as (Hw & _).
    unfold not_word_space_hyphen. by rewrite Hw. }
  assert (Forall (λ c, isspace c = false) s) as H2.
  { eapply Forall_impl; [exact Hs|]. intros c Hc.
    by destruct (name_char_facts c Hc) as (_ & _ & _ & ? & _). }
  pose proof (name_chars_lower s Hs) as H3.
  assert (Forall (λ c, hyphen_or_space c = false) s) as H4.
  { eapply Forall_impl; [exact Hs|]. intros c Hc.
    destruct (name_char_facts c Hc) as (_ & _ & _ & Hsp' & Hh & _).
    unfold hyphen_or_space. rewrite Hsp', orb_false_r. by apply N.eqb_neq. }
  rewrite re_sub_each_id, strip_id, H3 by done.
  unfold re_sub_runs at 2. rewrite re_sub_runs_from_id by done.
  apply re_sub_runs_from_sparse_id; [done| |done].
  apply Forall_forall. intros c _ Hc. by apply N.eqb_eq in Hc.
Qed.

Lemma normalize_fixed s :
  s ≠ [] → Forall name_char s → sparse is_underscore s → normalize s = s.
Proof.
  intros Hne Hs Hsp. unfold normalize.
  assert (Forall decomposed s) as Hd.
  { eapply Forall_impl; [exact Hs|]. intros c Hc.
    by destruct (name_char_facts c Hc) as (_ & _ & ? & _). }
  assert (Forall (λ c, isspace c = false) s) as Hb.
  { eapply Forall_impl; [exact Hs|]. intros c Hc.
    by destruct (name_char_facts c Hc) as (_ & _ & _ & ? & _). }
  rewrite strip_id, remove_accents_id, to_snake_case_fixed by done.
  by rewrite decide_False.
Qed.

Lemma normalize_chars x :
  normalize x ≠ [] ∧ Forall name_char (normalize x)
  ∧ sparse is_underscore (normalize x).
Proof.
  unfold normalize. case_decide as E.
  - split; [done|]. split; [apply py_columna_chars|].
    vm_compute. intuition discriminate.
  - split; [done|]. split.
    + apply to_snake_case_chars, remove_accents_decomposed.
    + apply to_snake_case_sparse.
Qed.

End name_props.

(** ** The excerpt satisfies the laws *)

Lemma assoc_Some {A} k (l : list (N * A)) v : assoc k l = Some v → (k, v) ∈ l.
Proof.
  induction l as [|[k' v'] l IH]; simpl; [done|].
  destruct (N.eqb_spec k k') as [->|_].
  - intros [= ->]. apply elem_of_cons. by left.
  - intros H. apply elem_of_cons. right. auto.
Qed.

(** A decidable property of the code points below 256, checked on each. *)
Lemma below_256 (P : N → Prop) `{!∀ c, Decision (P c)} :
  bool_decide (Forall P (N.of_nat <$> seq 0 256)) = true →
  ∀ c, c < 256 → P c.
Proof.
  intros Hall c Hc. apply bool_decide_eq_true_1 in Hall.
  rewrite Forall_forall in Hall. apply Hall.
  apply list_elem_of_fmap. exists (N.to_nat c). split; [lia|].
  apply elem_of_seq. lia.
Qed.

Lemma latin1_above c :
  256 ≤ c →
  latin1_isalnum c = false ∧ latin1_isspace c = false
  ∧ latin1_lower c = c ∧ latin1_nfkd c = [c].
Proof.
  intros Hc. unfold latin1_isalnum, latin1_isspace, latin1_lower, latin1_nfkd.
  assert (assoc c latin1_decompositions = None) as ->.
  { destruct (assoc c latin1_decompositions) as [v|] eqn:E; [|done].
    apply assoc_Some in E.
    assert (Forall (λ e, e.1 < 256) latin1_decompositions) as Hk.
    { compute_done. }
    rewrite Forall_forall in Hk. specialize (Hk _ E). simpl in Hk. lia. }
  repeat match goal with
         | |- context [?a <=? ?b] => destruct (N.leb_spec a b); try lia
         end; simpl; done.
Qed.

#[export] Instance latin1_laws : UnicodeLaws latin1.
Proof.
  split; simpl.
  - intros c d. destruct (decide (c < 256)) as [Hc|Hc].
    + revert d. apply Forall_forall. revert c Hc. refine (below_256 _ _); vm_compute; reflexivity.
    + destruct (latin1_above c) as (_ & _ & _ & ->); [lia|].
      intros ->%list_elem_of_singleton.
      by destruct (latin1_above c) as (_ & _ & _ & ->); [lia|].
  - intros c. destruct (decide (c < 256)) as [Hc|Hc].
    + revert c Hc. refine (below_256 _ _); vm_compute; reflexivity.
    + destruct (latin1_above c) as (_ & -> & _); [lia|]. done.
  - intros c. destruct (decide (c < 256)) as [Hc|Hc].
    + revert c Hc. refine (below_256 _ _); vm_compute; reflexivity.
    + destruct (latin1_above c) as (-> & _); [lia|]. done.
  - intros c. destruct (decide (c < 256)) as [Hc|Hc].
    + revert c Hc. refine (below_256 _ _); vm_compute; reflexivity.
    + destruct (latin1_above c) as (_ & -> & _); [lia|]. done.
  - intros c. destruct (decide (c < 256)) as [Hc|Hc].
    + revert c Hc. refine (below_256 _ _); vm_compute; reflexivity.
    + destruct (latin1_above c) as (-> & _); [lia|]. done.
  - reflexivity.
  - vm_compute. done.
  - vm_compute. done.
  - intros c Hc. assert (c < 256) as Hlt by lia. revert c Hlt Hc.
    refine (below_256 _ _); vm_compute; reflexivity.
  - intros c Hc. assert (c < 256) as Hlt by lia. revert c Hlt Hc.
    refine (below_256 _ _); vm_compute; reflexivity.
Qed.

(** ** Runs between two words *)

Lemma strip_ends p (s : str) :
  head_outside p s → head_outside p (reverse s) → strip p s = s.
Proof.
  intros H1 H2. unfold strip. rewrite (lstrip_id p s H1).
  by rewrite (lstrip_id p _ H2), reverse_involutive.
Qed.

Lemma re_sub_runs_from_run p r (sep b : str) :
  Forall (λ c, p c = true) sep → Forall (λ c, p c = false) b →
  re_sub_runs_from p r true (sep ++ b) = b.
Proof.
  intros Hsep Hb. induction Hsep as [|c sep Hc _ IH]; simpl.
  - by apply re_sub_runs_from_id.
  - by rewrite Hc.
Qed.

(** One run between two stretches outside the class becomes one
    replacement. *)
Lemma re_sub_runs_join p r (a sep b : str) :
  Forall (λ c, p c = false) a → Forall (λ c, p c = true) sep → sep ≠ [] →
  Forall (λ c, p c = false) b →
  re_sub_runs p r (a ++ sep ++ b) = a ++ r :: b.
Proof.
  intros Ha Hsep Hne Hb. unfold re_sub_runs.
  induction Ha as [|c a Hc _ IH]; simpl.
  - destruct Hsep as [|d sep Hd Hsep]; [done|]. simpl. rewrite Hd.
    f_equal. by apply re_sub_runs_from_run.
  - rewrite Hc. by f_equal.
Qed.

Section claims_normalize.
Context `{U : Unicode} {L : UnicodeLaws U}.

Lemma remove_accents_app s t :
  remove_accents (s ++ t) = remove_accents s ++ remove_accents t.
Proof. unfold remove_accents. apply bind_app. Qed.

Lemma remove_accents_separator sep :
  sep ≠ [] → Forall (λ c, hyphen_or_space c = true) sep →
  remove_accents sep ≠ []
  ∧ Forall (λ c, hyphen_or_space c = true ∧ lower c = c) (remove_accents sep).
Proof.
  pose proof hyphen_class as (_ & _ & Hhl & Hhn & Hhc).
  intros Hne Hsep.
  assert (∀ c, hyphen_or_space c = true →
            filter (λ d, combining d = false) (nfkd c) ≠ []
            ∧ Forall (λ c, hyphen_or_space c = true ∧ lower c = c)
                (filter (λ d, combining d = false) (nfkd c))) as Hone.
  { intros c Hc. unfold hyphen_or_space in Hc.
    destruct (N.eqb_spec c hyphen) as [E|_]; [subst c|].
    - rewrite Hhn, filter_cons, decide_True, filter_nil by done.
      split; [done|]. apply Forall_singleton. split; [|done].
      unfold hyphen_or_space. by rewrite N.eqb_refl.
    - simpl in Hc. destruct (nfkd_isspace c Hc) as [Hn Hall].
      assert (filter (λ d, combining d = false) (nfkd c) = nfkd c) as ->.
      { clear -Hall. induction Hall as [|d l [_ Hd] _ IH]; [done|].
        rewrite filter_cons, decide_True by done. by f_equal. }
      split; [done|]. eapply Forall_impl; [exact Hall|].
      intros d [Hd _]. unfold hyphen_or_space. rewrite Hd, orb_true_r.
      split; [done|]. by apply lower_isspace. }
  destruct Hsep as [|c sep Hc Hsep]; [done|]. unfold remove_accents. csimpl.
  destruct (Hone c Hc) as [Hn Hall]. split.
  - intros [E _]%app_eq_nil. done.
  - apply Forall_app. split; [done|]. apply Forall_forall. intros d Hd.
    apply list_elem_of_bind in Hd as (c' & Hd & Hc').
    rewrite Forall_forall in Hsep.
    destruct (Hone c' (Hsep c' Hc')) as [_ Hall'].
    rewrite Forall_forall in Hall'. auto.
Qed.

Lemma plain_lower c :
  plain c →
  is_word c = true ∧ isspace c = false
  ∧ hyphen_or_space (lower c) = false ∧ is_underscore (lower c) = false.
Proof.
  pose proof hyphen_class as (Hha & _).
  pose proof underscore_class as (Hua & _).
  intros [Ha [Hn Hc]]. destruct (lower_decomposed c Hn Hc Ha) as (Hla & _).
  unfold is_word, hyphen_or_space, is_underscore. rewrite Ha.
  rewrite (isalnum_not_isspace _ Ha), (isalnum_not_isspace _ Hla).
  repeat split; try done.
  - rewrite orb_false_r. apply N.eqb_neq. congruence.
  - apply N.eqb_neq. congruence.
Qed.

(** Two words of plain characters with one run of hyphens and blanks
    between them. *)
Lemma normalize_join a sep b :
  a ≠ [] → b ≠ [] → sep ≠ [] →
  Forall plain a → Forall plain b →
  Forall (λ c, hyphen_or_space c = true) sep →
  normalize (a ++ sep ++ b) = (lower <$> a) ++ underscore :: (lower <$> b).
Proof.
  intros Ha Hb Hsep Hpa Hpb Hhs.
  assert (∀ s, Forall plain s → Forall (λ c, isspace c = false) s) as Hns.
  { intros s Hs. eapply Forall_impl; [exact Hs|]. intros c Hc.
    by destruct (plain_lower c Hc) as (_ & ? & _). }
  assert (∀ s t, s ≠ [] → Forall plain s → head_outside isspace (s ++ t))
    as Hhead.
  { intros s t Hne Hs. destruct Hs as [|c s Hc _]; [done|]. simpl.
    by destruct (plain_lower c Hc) as (_ & ? & _). }
  assert (∀ t, head_outside isspace (a ++ t)
               ∧ head_outside isspace (reverse (a ++ t ++ b))) as Hends.
  { intros t. split; [by apply Hhead|].
    rewrite !reverse_app, <-(assoc_L (++)). apply Hhead.
    - intros E. apply (f_equal reverse) in E.
      by rewrite reverse_involutive in E.
    - by apply Forall_reverse. }
  destruct (remove_accents_separator sep Hsep Hhs) as [Hsep' Hhs'].
  unfold normalize.
  rewrite strip_ends by apply Hends.
  rewrite !remove_accents_app.
  rewrite (remove_accents_id a), (remove_accents_id b)
    by (eapply Forall_impl; [eassumption|]; by intros c [_ ?]).
  set (sep' := remove_accents sep) in *.
  unfold to_snake_case.
  rewrite re_sub_each_id.
  2:{ rewrite !Forall_app. repeat split.
      - eapply Forall_impl; [exact Hpa|]. intros c Hc.
        destruct (plain_lower c Hc) as (Hw & _).
        unfold not_word_space_hyphen. by rewrite Hw.
      - eapply Forall_impl; [exact Hhs'|]. intros c [Hc _].
        unfold not_word_space_hyphen, hyphen_or_space in *.
        destruct (c =? hyphen), (isspace c); simpl in *;
          rewrite ?orb_true_r; done.
      - eapply Forall_impl; [exact Hpb|]. intros c Hc.
        destruct (plain_lower c Hc) as (Hw & _).
        unfold not_word_space_hyphen. by rewrite Hw. }
  rewrite strip_ends by apply Hends.
  rewrite !fmap_app.
  assert (lower <$> sep' = sep') as ->.
  { clear -Hhs'. induction Hhs' as [|c s [_ Hc] _ IH]; [done|].
    csimpl. by rewrite Hc, IH. }
  rewrite re_sub_runs_join.
  2:{ apply Forall_fmap. eapply Forall_impl; [exact Hpa|]. intros c Hc.
      by destruct (plain_lower c Hc) as (_ & _ & ? & _). }
  2:{ eapply Forall_impl; [exact Hhs'|]. by intros c [? _]. }
  2:{ done. }
  2:{ apply Forall_fmap. eapply Forall_impl; [exact Hpb|]. intros c Hc.
      by destruct (plain_lower c Hc) as (_ & _ & ? & _). }
  change (?x ++ underscore :: ?y) with (x ++ [underscore] ++ y).
  rewrite re_sub_runs_join.
  - rewrite decide_False; [done|]. intros [_ ?]%app_eq_nil. done.
  - apply Forall_fmap. eapply Forall_impl; [exact Hpa|]. intros c Hc.
    by destruct (plain_lower c Hc) as (_ & _ & _ & ?).
  - by repeat constructor.
  - done.
  - apply Forall_fmap. eapply Forall_impl; [exact Hpb|]. intros c Hc.
    by destruct (plain_lower c Hc) as (_ & _ & _ & ?).
Qed.

End claims_normalize.

(** ** The contract of [normalize] *)

Section normalize_contract.
Context `{U : Unicode} {L : UnicodeLaws U}.




End normalize_contract.





(** ** Duplicate headers *)

Lemma occurrences_snoc name n seen :
  occurrences name (seen ++ [n])
  = (occurrences name seen + if decide (n = name) then 1 else 0)%nat.
Proof.
  unfold occurrences. rewrite filter_app, length_app, filter_cons, filter_nil.
  by case_decide.
Qed.

Section duplicates.
Context `{U : Unicode}.

Lemma normalize_headers_step_resolve new_cols seen pre cols :
  counts seen pre →
  (foldl normalize_headers_step (new_cols, seen) cols).1
  = new_cols ++ resolve pre (normalize <$> cols).
Proof.
  revert new_cols seen pre.
  induction cols as [|c cols IH]; intros new_cols seen pre Hseen; simpl.
  - by rewrite app_nil_r.
  - csimpl. pose proof (Hseen (normalize c)) as Hc.
    destruct (occurrences (normalize c) pre) as [|k] eqn:Ek; rewrite Hc.
    + rewrite (IH _ _ (pre ++ [normalize c])).
      * by rewrite <-(assoc_L (++)).
      * intros name. rewrite occurrences_snoc.
        destruct (decide (normalize c = name)) as [<-|Hne].
        -- by rewrite lookup_insert_eq, Ek.
        -- rewrite lookup_insert_ne, Nat.add_0_r by done. apply Hseen.
    + rewrite (IH _ _ (pre ++ [normalize c])).
      * by rewrite <-(assoc_L (++)).
      * intros name. rewrite occurrences_snoc.
        destruct (decide (normalize c = name)) as [<-|Hne].
        -- rewrite lookup_insert_eq, Ek. by replace (S k + 1)%nat with (S (S k)) by lia.
        -- rewrite lookup_insert_ne, Nat.add_0_r by done. apply Hseen.
Qed.

Lemma normalize_columns_resolve cols :
  normalize_columns cols = resolve [] (normalize <$> cols).
Proof.
  unfold normalize_columns.
  by rewrite (normalize_headers_step_resolve [] ∅ []).
Qed.

End duplicates.

Lemma resolve_lookup seen names i :
  resolve seen names !! i
  = (λ n, numbered n (occurrences n (seen ++ take i names))) <$> names !! i.
Proof.
  revert seen i. induction names as [|n names IH]; intros seen i; [done|].
  destruct i as [|i]; simpl.
  - by rewrite app_nil_r.
  - rewrite IH. by rewrite <-(assoc_L (++)).
Qed.

(** C5. For every list of raw headers, taken in their order, the header at
    each position gets its normalised name as it is when that name has not
    occurred before, and the name suffixed with [_k] when it is the [k]-th
    occurrence after the first ([k] counts from 1, per name); so
    Total, total, Total gives total, total_1, total_2. *)
Theorem normalize_headers_numbering :
  (∀ (U : Unicode) (cols : list str) (i : nat),
     normalize_columns cols !! i
     = (λ name, numbered name (occurrences name (take i (normalize <$> cols))))
       <$> (normalize <$> cols) !! i)
  ∧ normalize_columns [py "Total"; py "total"; py "Total"]
    = [py "total"; py "total_1"; py "total_2"].
Proof.
  split.
  - intros U cols i. by rewrite normalize_columns_resolve, resolve_lookup.
  - vm_compute. reflexivity.
Qed.

(** C1 (not met by the code). The names [normalize_headers] produces are
    meant to be pairwise distinct; for the headers a, A, a_1 they are
    a, a_1, a_1: the second header is given the name the third one
    normalises to, and the third keeps it, since a suffixed name is neither
    looked up in [seen] nor recorded there. *)
Theorem normalize_headers_not_distinct :
  normalize_columns [py "a"; py "A"; py "a_1"] = [py "a"; py "a_1"; py "a_1"]
  ∧ ¬ NoDup (normalize_columns [py "a"; py "A"; py "a_1"]).
Proof.
  split; [vm_compute; reflexivity|].
  intros Hnd. apply (NoDup_lookup _ 1 2 (py "a_1")) in Hnd; [done| |];
    vm_compute; reflexivity.
Qed.

(** ** File names *)

Lemma md5_digest_length msg : length (md5_digest msg) = 16%nat.
Proof.
  unfold md5_digest.
  destruct (foldl md5_block md5_init _) as [[[a b] c] d]. reflexivity.
Qed.

Lemma md5_hexdigest_length s : length (md5_hexdigest s) = 32%nat.
Proof.
  unfold md5_hexdigest.
  assert (∀ l : list Z, length (l ≫= hex_byte) = (2 * length l)%nat) as Hl.
  { induction l as [|b l IH]; [done|]. csimpl. rewrite IH. lia. }
  by rewrite Hl, md5_digest_length.
Qed.

Lemma hex_digit_not_reserved x : reserved (hex_digit x) = false.
Proof.
  unfold hex_digit.
  assert (Z.to_nat (x `mod` 16) < 16)%nat as Hlt.
  { pose proof (Z.mod_pos_bound x 16). lia. }
  destruct (Z.to_nat (x `mod` 16)) as [|n]; [reflexivity|].
  do 15 (destruct n as [|n]; [reflexivity|]). lia.
Qed.

Lemma md5_hexdigest_not_reserved s :
  Forall (λ c, reserved c = false) (md5_hexdigest s).
Proof.
  unfold md5_hexdigest. apply Forall_forall. intros c Hc.
  apply list_elem_of_bind in Hc as (b & Hc & _). unfold hex_byte in Hc.
  apply elem_of_cons in Hc as [->|Hc]; [apply hex_digit_not_reserved|].
  apply list_elem_of_singleton in Hc as ->. apply hex_digit_not_reserved.
Qed.

Section file_names.
Context `{U : Unicode}.

Lemma safe_filename_base_not_reserved name :
  Forall (λ c, reserved c = false) (safe_filename_base name).
Proof.
  unfold safe_filename_base. case_decide.
  - simpl py. repeat (apply Forall_cons; split; [reflexivity|]). constructor.
  - apply strip_Forall, re_sub_runs_from_Forall; [reflexivity|].
    by apply Forall_forall.
Qed.

(** C9 (amended). For every input string and every [max_len] of at least
    9, the output of [safe_filename] has at most [max_len] characters and
    none of the reserved ones; and when the normalised base is longer than
    [max_len], the output is the first [max_len - 9] characters of the
    base, an underscore, and the first 8 hex characters of the MD5 digest
    of the whole base. *)
Theorem safe_filename_bounded (name : str) (max_len : Z) :
  (9 ≤ max_len)%Z →
  let base := safe_filename_base name in
  let out := safe_filename name max_len in
  (Z.of_nat (length out) ≤ max_len)%Z
  ∧ Forall (λ c, reserved c = false) out
  ∧ ((Z.of_nat (length base) > max_len)%Z →
     out = take (Z.to_nat (max_len - 9)) base
           ++ underscore :: take 8 (md5_hexdigest base)
     ∧ length (take (Z.to_nat (max_len - 9)) base) = Z.to_nat (max_len - 9)
     ∧ length (take 8 (md5_hexdigest base)) = 8%nat).
Proof.
  intros Hmax base out. subst out. unfold safe_filename. fold base.
  pose proof (safe_filename_base_not_reserved name) as Hbase. fold base in Hbase.
  pose proof (md5_hexdigest_length base) as Hlen.
  pose proof (md5_hexdigest_not_reserved base) as Hhex.
  unfold slice_to. rewrite (proj2 (Z.leb_le 0 (max_len - 9))) by lia.
  destruct (Z.gtb_spec (Z.of_nat (length base)) max_len) as [Hgt|Hle].
  - split; [|split].
    + rewrite length_app, length_take. simpl. rewrite length_take. lia.
    + apply Forall_app. split; [by apply Forall_take|].
      apply Forall_cons. split; [reflexivity|]. by apply Forall_take.
    + intros _. split; [done|]. rewrite !length_take. lia.
  - split; [lia|]. split; [done|]. lia.
Qed.

End file_names.

(** With [max_len] below 9 the suffix alone is longer than [max_len]. *)
Lemma safe_filename_longer_than_max_len :
  safe_filename (py "abcdefgh") 5 = py "abcd_e8dc4081"
  ∧ ¬ (Z.of_nat (length (safe_filename (py "abcdefgh") 5)) ≤ 5)%Z.
Proof. split; [vm_compute; reflexivity|]. vm_compute. by intros H; apply H. Qed.

Lemma safe_filename_bounded_witness :
  let base := safe_filename_base (py "Total de ventas") in
  let out := safe_filename (py "Total de ventas") 12 in
  (Z.of_nat (length out) ≤ 12)%Z
  ∧ Forall (λ c, reserved c = false) out
  ∧ ((Z.of_nat (length base) > 12)%Z →
     out = take (Z.to_nat (12 - 9)) base
           ++ underscore :: take 8 (md5_hexdigest base)
     ∧ length (take (Z.to_nat (12 - 9)) base) = Z.to_nat (12 - 9)
     ∧ length (take 8 (md5_hexdigest base)) = 8%nat).
Proof. apply (safe_filename_bounded (py "Total de ventas") 12). lia. Defined.

(** ** Reading the workbook *)

(** C4 (amended). If the sheet selection is neither ["all"] nor a list,
    [read_excel_all_sheets] fails, and the only I/O it performs is opening
    the file: when the file opens, the failure is the invalid-configuration
    error; when it does not, the failure is that of opening it. No sheet is
    read in either case. *)
Theorem read_excel_all_sheets_invalid_cfg {num : Type}
    (fs : @filesystem num) (path : str) (cfg : sheets_cfg) :
  cfg ≠ CfgStr (py "all") → (∀ sheets, cfg ≠ CfgList sheets) →
  read_excel_all_sheets fs path cfg
  = ([EvOpen path],
     inl (match fs path with
          | Some _ => ValueError_sheets_cfg
          | None => ExcelFileError
          end)).
Proof.
  intros Hall Hlist. unfold read_excel_all_sheets, pd_ExcelFile.
  destruct (fs path) as [xls|]; [|reflexivity].
  destruct cfg as [s|sheets|]; simpl.
  - rewrite decide_False; [reflexivity|]. intros ->. by apply Hall.
  - by destruct (Hlist sheets).
  - reflexivity.
Qed.

(** The file is opened before the selection is looked at: the invalid
    selection is reported after an I/O event, and not at all when the file
    is missing. *)
Lemma read_excel_all_sheets_opens_first :
  read_excel_all_sheets one_workbook (py "datos.xlsx") (CfgStr (py "Hoja1"))
  = ([EvOpen (py "datos.xlsx")], inl ValueError_sheets_cfg)
  ∧ read_excel_all_sheets one_workbook (py "otro.xlsx") CfgOther
    = ([EvOpen (py "otro.xlsx")], inl ExcelFileError).
Proof. split; vm_compute; reflexivity. Qed.

Lemma read_excel_all_sheets_invalid_cfg_witness :
  read_excel_all_sheets one_workbook (py "datos.xlsx") (CfgStr (py "Hoja1"))
  = ([EvOpen (py "datos.xlsx")],
     inl (match one_workbook (py "datos.xlsx") with
          | Some _ => ValueError_sheets_cfg
          | None => ExcelFileError
          end)).
Proof.
  apply (read_excel_all_sheets_invalid_cfg one_workbook (py "datos.xlsx")
           (CfgStr (py "Hoja1"))).
  - discriminate.
  - intros sheets. discriminate.
Defined.

(** ** Type inference *)

Lemma foldl_insert_lookup {V} (f : str → V) (cols : list str) (m : gmap str V) c :
  foldl (λ m k, <[k := f k]> m) m cols !! c
  = if decide (c ∈ cols) then Some (f c) else m !! c.
Proof.
  revert m. induction cols as [|k cols IH]; intros m; cbn [foldl].
  - rewrite decide_False; [done|]. apply not_elem_of_nil.
  - rewrite IH. destruct (decide (c ∈ cols)) as [Hin|Hout].
    + rewrite decide_True; [done|]. apply elem_of_cons. by right.
    + destruct (decide (k = c)) as [->|Hne].
      * rewrite lookup_insert_eq, decide_True; [done|].
        apply elem_of_cons. by left.
      * rewrite lookup_insert_ne, decide_False; [done| |done].
        intros [?|?]%elem_of_cons; congruence.
Qed.

Section dtypes.
Context {num : Type} `{Nm : Numeric num}.

Lemma masked_notna (s : list (cell num)) :
  masked (to_numeric <$> s) (notna <$> s)
  = to_numeric <$> filter (λ v, notna v = true) s.
Proof.
  unfold masked. induction s as [|v s IH]; [done|]. csimpl.
  rewrite !filter_cons. simpl. destruct (notna v) eqn:E.
  - rewrite !decide_True by done. csimpl. by rewrite IH.
  - rewrite !decide_False by done. done.
Qed.

Lemma forallb_is_number (values : list (cell num)) :
  forallb is_number (to_numeric <$> values) = true
  ↔ Forall (λ v, is_Some (to_numeric v)) values.
Proof.
  induction values as [|v values IH]; csimpl.
  - split; [constructor|done].
  - rewrite andb_true_iff, Forall_cons, IH.
    destruct (to_numeric v) as [x|]; simpl.
    + split; intros [_ ?]; split; eauto.
    + split; intros [Hv _]; [done|]. by destruct Hv.
Qed.

Lemma forallb_whole (values : list (cell num)) :
  forallb whole (to_numeric <$> values) = true
  ↔ Forall (λ v, ∃ x, to_numeric v = Some x ∧ mod1_is_zero x = true) values.
Proof.
  induction values as [|v values IH]; csimpl.
  - split; [constructor|done].
  - rewrite andb_true_iff, Forall_cons, IH.
    destruct (to_numeric v) as [x|]; simpl.
    + split; [intros [? ?]; eauto|]. by intros [(? & [= <-] & ?) ?].
    + split; intros [Hv _]; [done|]. by destruct Hv as (? & ? & ?).
Qed.

Lemma build_simple_dtypes_lookup (df : DataFrame num) c :
  c ∈ columns df →
  build_simple_dtypes df !! c = Some (infer_dtype c (df_getitem df c)).
Proof.
  intros Hc. unfold build_simple_dtypes.
  rewrite (foldl_insert_lookup (λ c, infer_dtype c (df_getitem df c))).
  by rewrite decide_True.
Qed.

(** C2. For every column [c] of a table, [build_simple_dtypes] assigns it
    exactly one of the three types, as follows: [_sheet] gets "string"
    whatever it holds; another column with no non-null value gets "string";
    with non-null values that all parse as numbers it gets "int" when each
    number has a zero fractional part and "float" when one has not; and it
    gets "string" as soon as one non-null value does not parse. *)
Theorem build_simple_dtypes_rule (df : DataFrame num) (c : str) :
  df_wf df → c ∈ columns df →
  let values := filter (λ v, notna v = true) (df_getitem df c) in
  ∃ t, build_simple_dtypes df !! c = Some t
     ∧ t ∈ [py "int"; py "float"; py "string"]
     ∧ (c = py "_sheet" → t = py "string")
     ∧ (c ≠ py "_sheet" → values = [] → t = py "string")
     ∧ (c ≠ py "_sheet" → values ≠ [] →
        Forall (λ v, ∃ x, to_numeric v = Some x ∧ mod1_is_zero x = true) values →
        t = py "int")
     ∧ (c ≠ py "_sheet" →
        Forall (λ v, is_Some (to_numeric v)) values →
        Exists (λ v, ∃ x, to_numeric v = Some x ∧ mod1_is_zero x = false) values →
        t = py "float")
     ∧ (c ≠ py "_sheet" →
        Exists (λ v, to_numeric v = None) values →
        t = py "string").
Proof.
  intros _ Hc values. exists (infer_dtype c (df_getitem df c)).
  split; [by apply build_simple_dtypes_lookup|].
  unfold infer_dtype. rewrite masked_notna. fold values.
  generalize values. clear values. intros values.
  pose proof (forallb_is_number values) as Hnum.
  pose proof (forallb_whole values) as Hwhole.
  assert (∀ P : cell num → Prop, Exists P values → values ≠ []) as Hex.
  { intros P HP ->. by inversion HP. }
  split; [|split; [|split; [|split; [|split]]]].
  - repeat case_decide; repeat destruct (forallb _ _);
      rewrite !elem_of_cons; auto.
  - intros ->. by rewrite decide_True.
  - intros Hne ->. by rewrite decide_False, decide_True.
  - intros Hne Hvalues Hall. rewrite !decide_False by done.
    rewrite (proj2 Hwhole Hall), (proj2 Hnum); [done|].
    eapply Forall_impl; [exact Hall|]. intros v (x & -> & _). by eexists.
  - intros Hne Hall Hfrac. rewrite !decide_False by eauto.
    rewrite (proj2 Hnum Hall).
    destruct (forallb whole _); [|done]. exfalso.
    apply Exists_exists in Hfrac as (v & Hv & x & Hx & Hz).
    apply proj1 in Hwhole. specialize (Hwhole eq_refl).
    rewrite Forall_forall in Hwhole.
    destruct (Hwhole v Hv) as (x' & Hx' & Hz'). congruence.
  - intros Hne Hfail. rewrite !decide_False by eauto.
    destruct (forallb is_number _); [|done]. exfalso.
    apply Exists_exists in Hfail as (v & Hv & Hx).
    apply proj1 in Hnum. specialize (Hnum eq_refl).
    rewrite Forall_forall in Hnum. destruct (Hnum v Hv) as [x' Hx'].
    congruence.
Qed.

End dtypes.

Lemma build_simple_dtypes_rule_witness :
  let df := mkDataFrame [py "a"; py "_sheet"; py "b"]
              [[Num 1%Q; Text (py "x"); Text (py "2.5")];
               [NA; Text (py "x"); Num 3%Q]] in
  let c := py "b" in
  let values := filter (λ v, notna v = true) (df_getitem df c) in
  ∃ t, build_simple_dtypes df !! c = Some t
     ∧ t ∈ [py "int"; py "float"; py "string"]
     ∧ (c = py "_sheet" → t = py "string")
     ∧ (c ≠ py "_sheet" → values = [] → t = py "string")
     ∧ (c ≠ py "_sheet" → values ≠ [] →
        Forall (λ v, ∃ x, to_numeric v = Some x ∧ mod1_is_zero x = true) values →
        t = py "int")
     ∧ (c ≠ py "_sheet" →
        Forall (λ v, is_Some (to_numeric v)) values →
        Exists (λ v, ∃ x, to_numeric v = Some x ∧ mod1_is_zero x = false) values →
        t = py "float")
     ∧ (c ≠ py "_sheet" →
        Exists (λ v, to_numeric v = None) values →
        t = py "string").
Proof.
  apply (build_simple_dtypes_rule
           (mkDataFrame [py "a"; py "_sheet"; py "b"]
              [[Num 1%Q; Text (py "x"); Text (py "2.5")];
               [NA; Text (py "x"); Num 3%Q]]) (py "b")).
  - split; simpl.
    + compute_done.
    + repeat constructor.
  - compute_done.
Defined.

(** ** Frames *)

Arguments py : simpl never.

Section frame_props.
Context {num : Type}.
Implicit Types (c : str) (cols : list str) (r : list (cell num)).

Lemma label_index_None c cols : label_index c cols = None ↔ c ∉ cols.
Proof.
  unfold label_index. rewrite fmap_None, list_find_None, Forall_forall.
  split; [intros H Hc; by apply (H c)|intros H x Hx ->; done].
Qed.

Lemma label_index_Some c cols i :
  label_index c cols = Some i → cols !! i = Some c.
Proof.
  unfold label_index. intros ([j x] & Hfind & ->)%fmap_Some.
  by apply list_find_Some in Hfind as (? & -> & _).
Qed.

Lemma label_index_NoDup c cols i :
  NoDup cols → cols !! i = Some c → label_index c cols = Some i.
Proof.
  intros Hnd Hi. destruct (label_index c cols) as [j|] eqn:E.
  - apply label_index_Some in E. f_equal. by eapply NoDup_lookup.
  - apply label_index_None in E. destruct E. by eapply list_elem_of_lookup_2.
Qed.

Lemma label_index_app_l c cols e :
  c ∈ cols → label_index c (cols ++ e) = label_index c cols.
Proof.
  intros Hc. unfold label_index.
  destruct (list_find (λ c', c' = c) cols) as [[i x]|] eqn:E.
  - by rewrite (list_find_app_l _ _ _ _ _ E).
  - apply list_find_None in E. rewrite Forall_forall in E. by destruct (E c).
Qed.

Lemma row_cell_missing cols r c : c ∉ cols → row_cell cols r c = NA.
Proof. intros Hc%label_index_None. unfold row_cell. by rewrite Hc. Qed.

(** Labels appended to a frame, with nulls appended to its rows, do not
    change the cells under the labels it had; other labels read null. *)
Lemma row_cell_padded cols e r k c :
  length r = length cols →
  row_cell (cols ++ e) (r ++ replicate k NA) c = row_cell cols r c.
Proof.
  intros Hlen. destruct (decide (c ∈ cols)) as [Hc|Hc].
  - unfold row_cell. rewrite label_index_app_l by done.
    destruct (label_index c cols) as [i|] eqn:E; [|done].
    apply label_index_Some, lookup_lt_Some in E.
    rewrite lookup_app_l by lia. done.
  - rewrite (row_cell_missing cols r c Hc). unfold row_cell.
    destruct (label_index c (cols ++ e)) as [i|] eqn:E; [|done].
    apply label_index_Some in E.
    assert (length cols ≤ i)%nat as Hi.
    { destruct (decide (i < length cols)%nat) as [Hlt|]; [|lia].
      rewrite lookup_app_l in E by done. destruct Hc.
      by eapply list_elem_of_lookup_2. }
    rewrite lookup_app_r by lia.
    destruct (replicate k NA !! (i - length r)%nat) as [v|] eqn:Ev; [|done].
    by apply lookup_replicate in Ev as [-> _].
Qed.

Lemma foldl_add_missing (df : DataFrame num) (l : list str) :
  foldl add_missing df l
  = mkDataFrame (columns df ++ missing (columns df) l)
      ((λ r, r ++ replicate (length (missing (columns df) l)) NA) <$> rows df).
Proof.
  revert df. induction l as [|c l IH]; intros [cols rws]; simpl.
  - rewrite app_nil_r. f_equal. rewrite <-(list_fmap_id rws) at 1.
    apply list_fmap_ext. intros _ r _. by rewrite app_nil_r.
  - rewrite IH. unfold add_missing. simpl. case_decide as Hc; [done|].
    unfold df_setitem. simpl. rewrite (proj2 (label_index_None c cols) Hc).
    simpl. rewrite <-(assoc_L (++)). f_equal.
    rewrite <-list_fmap_compose. apply list_fmap_ext. intros _ r _. simpl.
    by rewrite <-(assoc_L (++)).
Qed.

Lemma sheet_labels_NoDup all_cols : NoDup all_cols → NoDup (sheet_labels all_cols).
Proof.
  intros Hnd. unfold sheet_labels. case_decide as Hs; [done|].
  apply NoDup_app. split; [done|]. split; [|apply NoDup_singleton].
  by intros c Hc ->%list_elem_of_singleton.
Qed.

Lemma elem_of_sheet_labels all_cols c :
  c ∈ sheet_labels all_cols ↔ c = py "_sheet" ∨ c ∈ all_cols.
Proof.
  unfold sheet_labels. case_decide as Hs.
  - split; [by right|]. by intros [->|?].
  - rewrite elem_of_app, list_elem_of_singleton. tauto.
Qed.

Lemma align_master_rows all_cols sh (df : DataFrame num) :
  NoDup all_cols →
  Forall (λ r, length r = length (columns df)) (rows df) →
  align all_cols sh df
  = mkDataFrame (sheet_labels all_cols)
      (master_row (sheet_labels all_cols) sh (columns df) <$> rows df).
Proof.
  intros Hnd Hrows. unfold align. rewrite foldl_add_missing.
  unfold df_reindex. simpl. rewrite <-list_fmap_compose.
  rewrite (list_fmap_ext _ (λ r, row_cell (columns df) r <$> all_cols)).
  2:{ intros i r Hr. simpl. apply list_fmap_ext. intros _ c _.
      apply row_cell_padded. rewrite Forall_forall in Hrows. apply Hrows.
      by eapply list_elem_of_lookup_2. }
  unfold df_setitem, sheet_labels, master_row. simpl.
  destruct (label_index (py "_sheet") all_cols) as [i|] eqn:E.
  - pose proof (label_index_Some _ _ _ E) as Hi.
    rewrite decide_True by (by eapply list_elem_of_lookup_2).
    f_equal. rewrite <-list_fmap_compose. apply list_fmap_ext.
    intros _ r _. simpl. apply list_eq. intros j.
    destruct (decide (i = j)) as [<-|Hne].
    + rewrite list_lookup_insert_eq
        by (rewrite length_fmap; by eapply lookup_lt_Some).
      rewrite list_lookup_fmap, Hi. simpl. by rewrite ?decide_True.
    + rewrite list_lookup_insert_ne, !list_lookup_fmap by done.
      destruct (all_cols !! j) as [c|] eqn:Ej; [|done]. simpl.
      rewrite decide_False; [done|]. intros Heq. apply Hne.
      rewrite Heq in Ej. by eapply NoDup_lookup.
  - apply label_index_None in E. rewrite decide_False by done.
    f_equal. rewrite <-list_fmap_compose. apply list_fmap_ext.
    intros _ r _. simpl. rewrite fmap_app. simpl.
    rewrite ?decide_True by done. f_equal. apply list_fmap_ext.
    intros j c Hc. rewrite decide_False; [done|]. intros Heq. apply E.
    rewrite <-Heq. by eapply list_elem_of_lookup_2.
Qed.

Lemma master_row_sheet labels sh cols r :
  NoDup labels → py "_sheet" ∈ labels →
  row_cell labels (master_row labels sh cols r) (py "_sheet") = Text sh.
Proof.
  intros Hnd [i Hi]%list_elem_of_lookup. unfold row_cell, master_row.
  rewrite (label_index_NoDup _ _ _ Hnd Hi), list_lookup_fmap, Hi. simpl.
  by rewrite ?decide_True.
Qed.

Lemma master_row_other labels sh cols r c :
  NoDup labels → c ∈ labels → c ≠ py "_sheet" →
  row_cell labels (master_row labels sh cols r) c = row_cell cols r c.
Proof.
  intros Hnd [i Hi]%list_elem_of_lookup Hne. unfold row_cell at 1, master_row.
  rewrite (label_index_NoDup _ _ _ Hnd Hi), list_lookup_fmap, Hi. simpl.
  by rewrite decide_False.
Qed.

End frame_props.

(** ** Concatenation of frames with the same labels *)

Section concat_props.
Context {num : Type}.

Lemma foldl_add_label_fresh acc l :
  NoDup (acc ++ l) → foldl add_label acc l = acc ++ l.
Proof.
  revert acc. induction l as [|c l IH]; intros acc Hnd; simpl.
  - by rewrite app_nil_r.
  - unfold add_label at 2. rewrite decide_False.
    + rewrite IH; by rewrite <-(assoc_L (++)).
    + apply NoDup_app in Hnd as (_ & Hdisj & _). intros Hc.
      apply (Hdisj c Hc). apply elem_of_cons. by left.
Qed.

Lemma foldl_add_label_known acc l :
  Forall (λ c, c ∈ acc) l → foldl add_label acc l = acc.
Proof.
  induction 1 as [|c l Hc _ IH]; simpl; [done|].
  unfold add_label at 2. by rewrite decide_True.
Qed.

Lemma union_labels_same (dfs : list (DataFrame num)) labels :
  dfs ≠ [] → NoDup labels → Forall (λ df, columns df = labels) dfs →
  union_labels dfs = labels.
Proof.
  intros Hne Hnd Hall. unfold union_labels. fold add_label.
  destruct Hall as [|df dfs Hdf Hall]; [done|]. csimpl.
  rewrite foldl_app, Hdf. rewrite (foldl_add_label_fresh [] labels) by exact Hnd. simpl.
  apply foldl_add_label_known, Forall_forall. intros c Hc.
  apply list_elem_of_bind in Hc as (df' & Hc & Hdf').
  rewrite Forall_forall in Hall. by rewrite <-(Hall df' Hdf').
Qed.

Lemma reindex_same_labels labels (r : list (cell num)) :
  NoDup labels → length r = length labels → row_cell labels r <$> labels = r.
Proof.
  intros Hnd Hlen. apply list_eq. intros i. rewrite list_lookup_fmap.
  destruct (labels !! i) as [c|] eqn:Ei; simpl.
  - unfold row_cell. rewrite (label_index_NoDup _ _ _ Hnd Ei).
    destruct (lookup_lt_is_Some_2 r i) as [v Hv].
    { rewrite Hlen. by eapply lookup_lt_Some. }
    by rewrite Hv.
  - symmetry. apply lookup_ge_None. apply lookup_ge_None in Ei. lia.
Qed.

Lemma reindex_same_rows (dfs : list (DataFrame num)) labels :
  NoDup labels →
  Forall (λ df, columns df = labels
                ∧ Forall (λ r, length r = length labels) (rows df)) dfs →
  dfs ≫= (λ df, rows (df_reindex df labels)) = dfs ≫= rows.
Proof.
  intros Hnd. induction 1 as [|df dfs [Hcols Hrows] _ IH]; [done|].
  rewrite !bind_cons. f_equal; [|done]. unfold df_reindex. simpl.
  rewrite Hcols. rewrite <-(list_fmap_id (rows df)) at 2.
  apply list_fmap_ext. intros i r Hr. apply reindex_same_labels; [done|].
  rewrite Forall_forall in Hrows. apply Hrows. by eapply list_elem_of_lookup_2.
Qed.

Lemma pd_concat_same (dfs : list (DataFrame num)) labels :
  dfs ≠ [] → NoDup labels →
  Forall (λ df, columns df = labels
                ∧ Forall (λ r, length r = length labels) (rows df)) dfs →
  pd_concat dfs = Some (mkDataFrame labels (dfs ≫= rows)).
Proof.
  intros Hne Hnd Hall. unfold pd_concat.
  assert (Forall (λ df, columns df = labels) dfs) as Hcols.
  { eapply Forall_impl; [exact Hall|]. by intros df [? _]. }
  rewrite (union_labels_same dfs labels) by done.
  rewrite (reindex_same_rows dfs labels) by done.
  by destruct dfs.
Qed.

End concat_props.

(** ** The master table *)

Section unify_props.
Context {num : Type} `{U : Unicode}.
Variable list_of_set : gset str → list str.
Hypothesis list_of_set_elements : ∀ X, list_of_set X ≡ₚ elements X.

Lemma list_of_set_NoDup X : NoDup (list_of_set X).
Proof. rewrite list_of_set_elements. apply NoDup_elements. Qed.

Lemma elem_of_list_of_set X c : c ∈ list_of_set X ↔ c ∈ X.
Proof. rewrite list_of_set_elements. apply elem_of_elements. Qed.

Lemma elem_of_all_columns (frames_norm : list (str * DataFrame num)) c :
  c ∈ all_columns frames_norm ↔ ∃ e, e ∈ frames_norm ∧ c ∈ columns e.2.
Proof.
  unfold all_columns.
  assert (∀ X : gset str,
            c ∈ foldl (λ all_cols e, all_cols ∪ list_to_set (columns e.2))
                  X frames_norm
            ↔ c ∈ X ∨ ∃ e, e ∈ frames_norm ∧ c ∈ columns e.2) as Hgen.
  { induction frames_norm as [|e l IH]; intros X; simpl.
    - split; [by left|]. intros [?|(e & He & _)]; [done|].
      by apply elem_of_nil in He.
    - rewrite IH, elem_of_union, elem_of_list_to_set. split.
      + intros [[?|?]|(e' & He' & ?)]; [by left| |].
        * right. exists e. split; [|done]. apply elem_of_cons. by left.
        * right. exists e'. split; [|done]. apply elem_of_cons. by right.
      + intros [?|(e' & [->|He']%elem_of_cons & ?)]; [by left; left| |].
        * left. by right.
        * right. by exists e'. }
  rewrite Hgen. split; [|by right]. intros [H|H]; [|done].
  by apply elem_of_empty in H.
Qed.

Lemma master_labels_NoDup (frames : list (str * DataFrame num)) :
  NoDup (master_labels list_of_set frames).
Proof. apply sheet_labels_NoDup, list_of_set_NoDup. Qed.

Lemma elem_of_master_labels (frames : list (str * DataFrame num)) c :
  c ∈ master_labels list_of_set frames
  ↔ c = py "_sheet" ∨ ∃ e, e ∈ frames ∧ c ∈ columns (normalize_headers e.2).
Proof.
  unfold master_labels.
  rewrite elem_of_sheet_labels, elem_of_list_of_set, elem_of_all_columns.
  split; (intros [?|(e & He & Hc)]; [by left|right]).
  - apply list_elem_of_fmap in He as (e' & -> & He'). by exists e'.
  - exists (e.1, normalize_headers e.2). split; [|done].
    by apply list_elem_of_fmap_2'  with e.
Qed.

(** The master table in closed form: one row per row of each sheet, in
    order, each read through [master_row]. *)
Lemma unify_sheets_master (frames : list (str * DataFrame num)) :
  sheets_wf frames → frames ≠ [] →
  unify_sheets list_of_set frames
  = Some (mkDataFrame (master_labels list_of_set frames)
            (frames ≫= (λ e, master_row (master_labels list_of_set frames) e.1
                               (columns (normalize_headers e.2))
                             <$> rows e.2))).
Proof.
  intros Hwf Hne. unfold unify_sheets. fold (master_labels list_of_set frames).
  set (all_cols := list_of_set _).
  assert (NoDup all_cols) as Hnd by apply list_of_set_NoDup.
  rewrite <-list_fmap_compose.
  rewrite (list_fmap_ext _
    (λ e, mkDataFrame (sheet_labels all_cols)
            (master_row (sheet_labels all_cols) e.1
               (columns (normalize_headers e.2)) <$> rows e.2))).
  2:{ intros i e He. simpl.
      rewrite align_master_rows; [done|done|].
      unfold sheets_wf in Hwf. rewrite Forall_forall in Hwf.
      apply (Hwf e). by eapply list_elem_of_lookup_2. }
  rewrite (pd_concat_same _ (sheet_labels all_cols)).
  - f_equal. f_equal. unfold master_labels. fold all_cols.
    generalize (sheet_labels all_cols). clear. intros labels.
    induction frames as [|e l IH]; [done|].
    rewrite fmap_cons, !bind_cons. by rewrite IH.
  - by destruct frames.
  - by apply sheet_labels_NoDup.
  - apply Forall_fmap, Forall_forall. intros e _. simpl. split; [done|].
    apply Forall_fmap, Forall_forall. intros r _. simpl.
    unfold master_row. by rewrite length_fmap.
Qed.

Lemma unify_sheets_Some (frames : list (str * DataFrame num)) t :
  unify_sheets list_of_set frames = Some t → frames ≠ [].
Proof. by intros H ->. Qed.

End unify_props.

(** ** The contract of [unify_sheets] *)

Section unify_contract.
Context {num : Type} `{U : Unicode}.
Variable list_of_set : gset str → list str.
Hypothesis list_of_set_elements : ∀ X, list_of_set X ≡ₚ elements X.

Lemma mjoin_fmap_bind {A B} (f : A → list B) (l : list A) :
  mjoin (f <$> l) = l ≫= f.
Proof. induction l as [|x l IH]; [done|]. csimpl. by rewrite IH. Qed.

Lemma fmap_bind_rows {A B C} (f : B → C) (g : A → list B) (l : list A) :
  f <$> (l ≫= g) = l ≫= (λ x, f <$> g x).
Proof.
  induction l as [|x l IH]; [done|]. rewrite !bind_cons, fmap_app.
  by rewrite IH.
Qed.



End unify_contract.




(** ** Further properties of the header names and of the master table *)

Lemma pretty_N_char_digit x : 48 ≤ N_of_ascii (pretty_N_char x) ≤ 57.
Proof. unfold pretty_N_char. repeat case_match; simpl; lia. Qed.

Lemma pretty_N_go_digits x s :
  Forall (λ c, 48 ≤ c ≤ 57) (py s) →
  Forall (λ c, 48 ≤ c ≤ 57) (py (pretty_N_go x s)).
Proof.
  revert s. induction (N.lt_wf_0 x) as [x _ IH]; intros s Hs.
  destruct (decide (x = 0)) as [->|Hx]; [by rewrite pretty_N_go_0|].
  rewrite pretty_N_go_step by lia. apply IH.
  - apply N.div_lt; lia.
  - change (py (String ?a ?s)) with (N_of_ascii a :: py s).
    apply Forall_cons. split; [apply pretty_N_char_digit|done].
Qed.

Lemma str_of_nat_digits k : Forall (λ c, 48 ≤ c ≤ 57) (str_of_nat k).
Proof.
  unfold str_of_nat, pretty, pretty_nat, pretty, pretty_N. case_decide.
  - apply Forall_cons. split; [vm_compute; split; discriminate|constructor].
  - apply pretty_N_go_digits. constructor.
Qed.

Lemma resolve_Forall (P : str → Prop) seen names :
  (∀ n k, n ∈ names → P (numbered n k)) → Forall P (resolve seen names).
Proof.
  revert seen. induction names as [|n names IH]; intros seen HP; simpl.
  - constructor.
  - apply Forall_cons. split.
    + apply HP. apply elem_of_cons. by left.
    + apply IH. intros n' k Hn'. apply HP. apply elem_of_cons. by right.
Qed.

Section header_names.
Context `{U : Unicode} {L : UnicodeLaws U}.


End header_names.


Section row_count.
Context {num : Type} `{U : Unicode}.
Variable list_of_set : gset str → list str.
Hypothesis list_of_set_elements : ∀ X, list_of_set X ≡ₚ elements X.


End row_count.


(** The examples of the specification: the names of two headers, the types
    of four columns, and the table of two sheets with the headers ID,
    Nombre and id, Edad. *)
Theorem specification_examples :
  normalize (py "N" ++ [250] ++ py "mero Cliente") = py "numero_cliente"
  ∧ normalize [] = py "columna"
  ∧ infer_dtype (py "x") [Num 1%Q; Num 2%Q; Num 3%Q] = py "int"
  ∧ infer_dtype (py "x") [Num 1%Q; Num (5 # 2)%Q; Num 3%Q] = py "float"
  ∧ infer_dtype (py "x") [Num 1%Q; Text (py "a"); Num 3%Q] = py "string"
  ∧ infer_dtype (py "x") [@NA Q; NA] = py "string"
  ∧ unify_sheets elements
      [ (py "A", mkDataFrame [py "ID"; py "Nombre"] [[Num 1%Q; Text (py "ana")]]);
        (py "B", mkDataFrame [py "id"; py "Edad"] [[Num 2%Q; Num 30%Q]]) ]
    = Some (mkDataFrame [py "nombre"; py "id"; py "edad"; py "_sheet"]
              [ [Text (py "ana"); Num 1%Q; NA; Text (py "A")];
                [NA; Num 2%Q; Num 30%Q; Text (py "B")] ]).
Proof. repeat split; vm_compute; reflexivity. Qed.

(** ** The model of the later stages on small inputs *)

Example rational_str_examples :
  rational_str 3 = py "3" ∧ rational_str (- 5 # 2) = py "-2.5"
  ∧ rational_str (1 # 8) = py "0.125" ∧ rational_str (1 # 3) = py "1/3".
Proof. repeat split; vm_compute; reflexivity. Qed.

Example apply_dtypes_example :
  let df := mkDataFrame [py "a"; py "b"; py "c"]
              [ [Num 1%Q; Text (py "2.5"); Num 7%Q];
                [Text (py "2"); NA; Text (py "x")] ] in
  apply_dtypes df (build_simple_dtypes df)
  = mkDataFrame [py "a"; py "b"; py "c"]
      [ [Num 1%Q; Num (25 # 10)%Q; Text (py "7")];
        [Num 2%Q; NA; Text (py "x")] ].
Proof. vm_compute. reflexivity. Qed.

Example export_columns_names_example :
  export_columns_names {[py "id"; py "id_2"]} [py "id"; py "ID"; py "x"]
  = Some [py "id_3"; py "id_4"; py "x"].
Proof. vm_compute. reflexivity. Qed.

(** ** The text utilities, one by one and together *)

Lemma lstrip_split p (s : str) :
  ∃ ws, s = ws ++ lstrip p s ∧ Forall (λ c, p c = true) ws.
Proof.
  induction s as [|c s (ws & IH & Hws)]; simpl; [by exists []|].
  destruct (p c) eqn:E; [|by exists []].
  exists (c :: ws). split; [simpl; by f_equal|]. by constructor.
Qed.

Lemma strip_split p (s : str) :
  ∃ ws ws', s = ws ++ strip p s ++ ws'
            ∧ Forall (λ c, p c = true) ws ∧ Forall (λ c, p c = true) ws'.
Proof.
  destruct (lstrip_split p s) as (ws & Hs & Hws).
  destruct (lstrip_split p (reverse (lstrip p s))) as (ws' & Hr & Hws').
  exists ws, (reverse ws'). split; [|split; [done|by apply Forall_reverse]].
  unfold strip. rewrite <-reverse_app, <-Hr, reverse_involutive. done.
Qed.

Lemma occurrences_absent name (names : list str) :
  name ∉ names → occurrences name names = 0%nat.
Proof.
  intros Hn. unfold occurrences. induction names as [|n names IH]; [done|].
  rewrite filter_cons, decide_False.
  - apply IH. intros ?. apply Hn. apply elem_of_cons. by right.
  - intros ->. apply Hn. apply elem_of_cons. by left.
Qed.

Section text_utilities.
Context `{U : Unicode}.

(** Headers whose normalised names differ are never renamed. *)
Theorem normalize_headers_keeps_distinct_names (cols : list str) :
  NoDup (normalize <$> cols) → normalize_columns cols = normalize <$> cols.
Proof.
  intros Hnd. apply list_eq. intros i.
  rewrite normalize_columns_resolve, resolve_lookup. simpl.
  destruct ((normalize <$> cols) !! i) as [name|] eqn:Ei; [|done]. simpl.
  rewrite occurrences_absent; [done|].
  intros (j & Hj)%list_elem_of_lookup.
  pose proof (lookup_lt_Some _ _ _ Hj) as Hlt. rewrite length_take in Hlt.
  rewrite lookup_take_lt in Hj by lia.
  pose proof (NoDup_lookup _ _ _ _ Hnd Hj Ei). lia.
Qed.

Context {L : UnicodeLaws U}.

Lemma remove_accents_blanks ws :
  Forall (λ c, isspace c = true) ws →
  Forall (λ c, isspace c = true) (remove_accents ws).
Proof.
  intros Hws. apply Forall_forall. intros d Hd. unfold remove_accents in Hd.
  apply list_elem_of_bind in Hd as (c & Hd & Hc).
  apply list_elem_of_filter in Hd as [_ Hd].
  rewrite Forall_forall in Hws.
  destruct (nfkd_isspace c (Hws c Hc)) as [_ Hall].
  rewrite Forall_forall in Hall. by destruct (Hall d Hd).
Qed.

Lemma to_snake_case_blanks_around w1 m w2 :
  Forall (λ c, isspace c = true) w1 → Forall (λ c, isspace c = true) w2 →
  to_snake_case (w1 ++ m ++ w2) = to_snake_case m.
Proof.
  intros H1 H2. unfold to_snake_case.
  assert (∀ w, Forall (λ c, isspace c = true) w →
               re_sub_each not_word_space_hyphen space w = w) as Hkeep.
  { intros w Hw. apply re_sub_each_id. eapply Forall_impl; [exact Hw|].
    intros c Hc. unfold not_word_space_hyphen. by rewrite Hc, orb_true_r. }
  unfold re_sub_each at 1. rewrite !fmap_app.
  fold (re_sub_each not_word_space_hyphen space w1).
  fold (re_sub_each not_word_space_hyphen space w2).
  fold (re_sub_each not_word_space_hyphen space m).
  rewrite (Hkeep w1 H1), (Hkeep w2 H2). by rewrite strip_app.
Qed.

(** The name before the fallback does not depend on whether the blanks
    around the header are trimmed first, as [normalize_headers] does, or
    not, as [safe_filename] does. *)
Lemma to_snake_case_remove_accents_strip x :
  to_snake_case (remove_accents (strip isspace x))
  = to_snake_case (remove_accents x).
Proof.
  destruct (strip_split isspace x) as (w1 & w2 & Hx & H1 & H2).
  rewrite Hx at 2. rewrite !remove_accents_app.
  by rewrite to_snake_case_blanks_around by by apply remove_accents_blanks.
Qed.

Lemma safe_filename_base_normalize x :
  (∀ c, reserved c = true ∨ c = dot → isalnum c = false) →
  safe_filename_base x = normalize x.
Proof.
  intros Hpunct. unfold safe_filename_base, normalize.
  rewrite to_snake_case_remove_accents_strip.
  set (t := to_snake_case (remove_accents x)).
  assert (Forall name_char t) as Ht
    by apply to_snake_case_chars, remove_accents_decomposed.
  assert (Forall (λ c, reserved c = false) t) as Hres.
  { eapply Forall_impl; [exact Ht|]. intros c [->|(Ha & _)]; [reflexivity|].
    destruct (reserved c) eqn:E; [|done]. rewrite Hpunct in Ha by by left.
    done. }
  assert (Forall (λ c, space_or_dot c = false) t) as Hsd.
  { eapply Forall_impl; [exact Ht|]. intros c Hc.
    destruct (name_char_facts c Hc) as (_ & _ & _ & _ & _ & Hsp).
    unfold space_or_dot. rewrite (proj2 (N.eqb_neq c space) Hsp). simpl.
    apply N.eqb_neq. intros ->. destruct Hc as [Hc|(Ha & _)]; [done|].
    rewrite Hpunct in Ha by by right. done. }
  unfold re_sub_runs. by rewrite re_sub_runs_from_id, strip_id.
Qed.



End text_utilities.

Lemma latin1_punctuation c :
  reserved c = true ∨ c = dot → isalnum c = false.
Proof.
  intros [Hc| ->]; [|reflexivity]. unfold reserved in Hc.
  apply bool_decide_eq_true_1 in Hc.
  repeat (apply elem_of_cons in Hc as [->|Hc]; [reflexivity|]).
  by apply elem_of_nil in Hc.
Qed.

Lemma normalize_headers_keeps_distinct_names_witness :
  normalize_columns [py "ID"; py "Nombre"; py "nombre 2"]
  = normalize <$> [py "ID"; py "Nombre"; py "nombre 2"].
Proof.
  apply normalize_headers_keeps_distinct_names. compute_done.
Defined.



(** ** Reading the sheets *)

Section reading.
Context {num : Type}.
Implicit Types (fs : @filesystem num) (xls frames : list (str * DataFrame num)).

Lemma dict_set_fresh {V} k (v : V) (d : list (str * V)) :
  k ∉ d.*1 → dict_set k v d = d ++ [(k, v)].
Proof.
  induction d as [|[k' v'] d IH]; simpl; [done|]. intros Hk.
  rewrite decide_False.
  - rewrite IH; [done|]. intros ?. apply Hk. apply elem_of_cons. by right.
  - intros ->. apply Hk. apply elem_of_cons. by left.
Qed.

Lemma dict_set_keys {V} k (v : V) (d : list (str * V)) :
  (dict_set k v d).*1 = if decide (k ∈ d.*1) then d.*1 else d.*1 ++ [k].
Proof.
  induction d as [|[k' v'] d IH].
  - destruct (decide (k ∈ _)) as [Hin|_]; [|done]. by apply elem_of_nil in Hin.
  - cbn [dict_set]. rewrite !fmap_cons. cbn [fst].
    destruct (decide (k' = k)) as [->|Hne].
    + rewrite fmap_cons. cbn [fst]. clear IH.
      destruct (decide (k ∈ k :: d.*1)) as [_|Hout]; [done|]. destruct Hout.
      apply elem_of_cons. by left.
    + rewrite !fmap_cons, IH. cbn [fst].
      destruct (decide (k ∈ d.*1)) as [Hin|Hout];
        destruct (decide (k ∈ k' :: d.*1)) as [Hin'|Hout']; try done.
      * destruct Hout'. apply elem_of_cons. by right.
      * apply elem_of_cons in Hin' as [?|?]; congruence.
Qed.

Lemma dict_set_elem_of {V} k (v : V) (d : list (str * V)) e :
  e ∈ dict_set k v d → e = (k, v) ∨ e ∈ d.
Proof.
  induction d as [|[k' v'] d IH]; simpl.
  - intros ->%list_elem_of_singleton. by left.
  - destruct (decide (k' = k)) as [->|Hne].
    + intros [->|?]%elem_of_cons; [by left|]. right. apply elem_of_cons.
      by right.
    + intros [->|He]%elem_of_cons.
      * right. apply elem_of_cons. by left.
      * destruct (IH He) as [?|?]; [by left|]. right. apply elem_of_cons.
        by right.
Qed.

Lemma pd_read_excel_present fs path xls sh :
  fs path = Some xls → sh ∈ xls.*1 →
  ∃ df, pd_read_excel fs path sh = ([EvReadSheet path sh], inr df)
        ∧ (sh, df) ∈ xls.
Proof.
  intros Hfs (e & -> & He)%list_elem_of_fmap. unfold pd_read_excel.
  rewrite Hfs. simpl.
  destruct (list_find_elem_of (λ e', e'.1 = e.1) xls e He eq_refl)
    as [[i [sh df]] Hfind].
  rewrite Hfind. simpl. exists df. split; [done|].
  apply list_find_Some in Hfind as (Hi & Heq & _). simpl in Heq.
  rewrite <-Heq. by eapply list_elem_of_lookup_2.
Qed.

Lemma pd_read_excel_absent fs path xls sh :
  fs path = Some xls → sh ∉ xls.*1 →
  pd_read_excel fs path sh = ([EvReadSheet path sh], inl ReadExcelError).
Proof.
  intros Hfs Hsh. unfold pd_read_excel. rewrite Hfs. simpl.
  destruct (list_find (λ e, e.1 = sh) xls) as [[i e]|] eqn:Hfind; [|done].
  apply list_find_Some in Hfind as (Hi & Heq & _). destruct Hsh.
  rewrite <-Heq. apply list_elem_of_fmap_2. by eapply list_elem_of_lookup_2.
Qed.

(** Reading sheets that are all in the workbook. *)
Lemma read_sheets_present fs path xls sheets frames :
  fs path = Some xls → Forall (λ sh, sh ∈ xls.*1) sheets →
  NoDup frames.*1 → (∀ e, e ∈ frames → e ∈ xls) →
  ∃ frames',
    read_sheets fs path sheets frames = (EvReadSheet path <$> sheets, inr frames')
    ∧ NoDup frames'.*1
    ∧ (∀ sh, sh ∈ frames'.*1 ↔ sh ∈ frames.*1 ∨ sh ∈ sheets)
    ∧ (∀ e, e ∈ frames' → e ∈ xls)
    ∧ (NoDup (frames.*1 ++ sheets) → frames'.*1 = frames.*1 ++ sheets).
Proof.
  intros Hfs Hall. revert frames.
  induction Hall as [|sh sheets Hsh _ IH]; intros frames Hnd Hsub.
  - exists frames. simpl. split; [done|]. split; [done|]. split.
    + intros sh. rewrite elem_of_nil. tauto.
    + split; [done|]. by rewrite app_nil_r.
  - destruct (pd_read_excel_present fs path xls sh Hfs Hsh) as (df & Hread & Hdf).
    destruct (IH (dict_set sh df frames)) as (frames' & Hrun & Hnd' & Hkeys & Hsub' & Hord).
    { rewrite dict_set_keys. case_decide as Hin; [done|].
      apply NoDup_app. split; [done|]. split; [|apply NoDup_singleton].
      by intros k Hk ->%list_elem_of_singleton. }
    { intros e [->|He]%dict_set_elem_of; auto. }
    exists frames'. simpl. unfold io_bind. rewrite Hread, Hrun.
    split; [done|]. split; [done|]. split; [|split; [done|]].
    + intros k. rewrite Hkeys, dict_set_keys, elem_of_cons.
      case_decide as Hin.
      * split; [tauto|]. intros [?|[->|?]]; auto.
      * rewrite elem_of_app, list_elem_of_singleton. tauto.
    + intros Hnd2.
      assert (sh ∉ frames.*1) as Hfresh.
      { apply NoDup_app in Hnd2 as (_ & Hdisj & _). intros Hin.
        apply (Hdisj sh Hin). apply elem_of_cons. by left. }
      rewrite Hord; rewrite dict_set_keys, decide_False by done;
        by rewrite <-(assoc_L (++)).
Qed.

(** Reading every sheet of a workbook in turn gives the workbook. *)
Lemma read_sheets_workbook fs path xls read todo :
  fs path = Some xls → NoDup xls.*1 → xls = read ++ todo →
  read_sheets fs path todo.*1 read
  = (EvReadSheet path <$> todo.*1, inr xls).
Proof.
  intros Hfs Hnd. revert read.
  induction todo as [|[sh df] todo IH]; intros read Hxls; csimpl.
  - by rewrite Hxls, app_nil_r.
  - assert (sh ∈ xls.*1) as Hsh.
    { rewrite Hxls, fmap_app, elem_of_app. right. apply elem_of_cons. by left. }
    destruct (pd_read_excel_present fs path xls sh Hfs Hsh) as (df' & Hread & Hdf).
    assert (df' = df) as ->.
    { assert ((sh, df) ∈ xls) as Hin.
      { rewrite Hxls, elem_of_app. right. apply elem_of_cons. by left. }
      apply list_elem_of_lookup in Hdf as [i Hi].
      apply list_elem_of_lookup in Hin as [j Hj].
      assert (i = j) as ->.
      { apply (NoDup_lookup _ i j sh Hnd); by rewrite list_lookup_fmap, ?Hi, ?Hj. }
      congruence. }
    unfold io_bind. rewrite Hread, dict_set_fresh.
    + rewrite (IH (read ++ [(sh, df)])); [done|].
      by rewrite <-(assoc_L (++)).
    + rewrite Hxls, fmap_app in Hnd. apply NoDup_app in Hnd as (_ & Hdisj & _).
      intros Hin. apply (Hdisj sh Hin). apply elem_of_cons. by left.
Qed.


(** With a list of names that are all sheets of the workbook,
    [read_excel_all_sheets] reads them in the given order and returns a
    dict with each requested name once, mapped to a sheet of the workbook;
    when no name is repeated the keys are the list itself. *)
Theorem read_excel_all_sheets_list fs path xls (sheets : list str) :
  fs path = Some xls → Forall (λ sh, sh ∈ xls.*1) sheets →
  ∃ frames,
    read_excel_all_sheets fs path (CfgList sheets)
    = (EvOpen path :: (EvReadSheet path <$> sheets), inr frames)
    ∧ NoDup frames.*1
    ∧ (∀ sh, sh ∈ frames.*1 ↔ sh ∈ sheets)
    ∧ (∀ e, e ∈ frames → e ∈ xls)
    ∧ (NoDup sheets → frames.*1 = sheets).
Proof.
  intros Hfs Hall.
  destruct (read_sheets_present fs path xls sheets [] Hfs Hall)
    as (frames & Hrun & Hnd & Hkeys & Hsub & Hord).
  { constructor. } { intros e He. by apply elem_of_nil in He. }
  exists frames. unfold read_excel_all_sheets, pd_ExcelFile. rewrite Hfs.
  unfold io_bind, io_ret. rewrite Hrun. split; [done|]. split; [done|].
  split; [|split; [done|exact Hord]].
  intros sh. rewrite Hkeys. simpl. rewrite elem_of_nil. tauto.
Qed.

(** A name that is no sheet of the workbook stops the reading: the sheets
    before it have been read, none after it is, and the error of reading
    it is raised. *)
Theorem read_excel_all_sheets_missing_sheet fs path xls
    (before : list str) (sh : str) (after : list str) :
  fs path = Some xls → Forall (λ s, s ∈ xls.*1) before → sh ∉ xls.*1 →
  read_excel_all_sheets fs path (CfgList (before ++ sh :: after))
  = (EvOpen path :: (EvReadSheet path <$> before) ++ [EvReadSheet path sh],
     inl ReadExcelError).
Proof.
  intros Hfs Hall Hsh. unfold read_excel_all_sheets, pd_ExcelFile. rewrite Hfs.
  unfold io_bind at 1 2, io_ret.
  assert (∀ frames,
            read_sheets fs path (before ++ sh :: after) frames
            = ((EvReadSheet path <$> before) ++ [EvReadSheet path sh],
               inl ReadExcelError)) as ->; [|done].
  induction Hall as [|s before Hs _ IH]; intros frames; simpl.
  - unfold io_bind. by rewrite (pd_read_excel_absent fs path xls sh).
  - destruct (pd_read_excel_present fs path xls s Hfs Hs) as (df & Hread & _).
    unfold io_bind. by rewrite Hread, IH.
Qed.

End reading.


Lemma read_excel_all_sheets_list_witness :
  ∃ frames,
    read_excel_all_sheets two_sheet_workbook (py "libro.xlsx")
      (CfgList [py "B"; py "A"; py "B"])
    = (EvOpen (py "libro.xlsx")
         :: (EvReadSheet (py "libro.xlsx") <$> [py "B"; py "A"; py "B"]),
       inr frames)
    ∧ NoDup frames.*1
    ∧ (∀ sh, sh ∈ frames.*1 ↔ sh ∈ [py "B"; py "A"; py "B"])
    ∧ (∀ e, e ∈ frames → e ∈ two_sheets)
    ∧ (NoDup [py "B"; py "A"; py "B"] → frames.*1 = [py "B"; py "A"; py "B"]).
Proof.
  apply read_excel_all_sheets_list; [vm_compute; reflexivity|].
  repeat (apply Forall_cons; split; [compute_done|]). constructor.
Defined.

Lemma read_excel_all_sheets_missing_sheet_witness :
  read_excel_all_sheets two_sheet_workbook (py "libro.xlsx")
    (CfgList ([py "A"] ++ py "C" :: [py "B"]))
  = (EvOpen (py "libro.xlsx")
       :: (EvReadSheet (py "libro.xlsx") <$> [py "A"])
          ++ [EvReadSheet (py "libro.xlsx") (py "C")],
     inl ReadExcelError).
Proof.
  apply (read_excel_all_sheets_missing_sheet two_sheet_workbook
           (py "libro.xlsx") two_sheets [py "A"] (py "C") [py "B"]).
  - vm_compute. reflexivity.
  - repeat (apply Forall_cons; split; [compute_done|]). constructor.
  - compute_done.
Defined.

(** ** Typing the columns *)

Section typing.
Context {num : Type} `{Nm : Numeric num} `{Cs : Casting num}.
Implicit Types (df out : DataFrame num) (s : list (cell num)) (c t : str).

Lemma infer_dtype_tags c s :
  infer_dtype c s = py "int" ∨ infer_dtype c s = py "float"
  ∨ infer_dtype c s = py "string".
Proof.
  unfold infer_dtype. repeat case_decide; auto.
  destruct (forallb is_number _); auto. destruct (forallb whole _); auto.
Qed.

(** A column is only tagged as a number when each of its non-null values
    is one, or parses as one. *)
Lemma infer_dtype_numeric c s :
  infer_dtype c s ≠ py "string" →
  Forall (λ v, notna v = true → is_Some (to_numeric v)) s.
Proof.
  unfold infer_dtype. repeat case_decide; try done.
  destruct (forallb is_number _) eqn:Hnum; [|done]. intros _.
  rewrite masked_notna, forallb_is_number, Forall_forall in Hnum.
  apply Forall_forall. intros v Hv Hna. apply Hnum.
  apply list_elem_of_filter. by split.
Qed.

Lemma forallb_Permutation {A} (f : A → bool) (l k : list A) :
  l ≡ₚ k → forallb f l = forallb f k.
Proof.
  induction 1 as [|x l k _ IH|x y l|l k m _ IH1 _ IH2]; simpl;
    [done|by rewrite IH|by destruct (f x), (f y)|congruence].
Qed.

Lemma length_apply_dtype t s : length (apply_dtype t s) = length s.
Proof.
  unfold apply_dtype, astype_string, to_numeric_coerce, astype_Int64.
  repeat case_decide; rewrite ?length_fmap; try done.
  destruct (mapM _ _) as [s'|] eqn:E; [|by rewrite length_fmap].
  apply length_mapM in E. by rewrite length_fmap in E.
Qed.

Lemma notna_astype_string s : notna <$> astype_string s = notna <$> s.
Proof.
  unfold astype_string. rewrite <-list_fmap_compose.
  apply list_fmap_ext. by intros _ [| |] _.
Qed.

Lemma notna_astype_Int64 s s' :
  astype_Int64 s = Some s' → notna <$> s' = notna <$> s.
Proof.
  unfold astype_Int64. intros H%mapM_Some_1.
  induction H as [|v v' s s' Hv _ IH]; [done|]. csimpl. rewrite IH. f_equal.
  destruct v as [|x|t]; simplify_eq/=; try done.
  by destruct (to_Int64 x); simplify_eq/=.
Qed.

Lemma notna_to_numeric_coerce s :
  Forall (λ v, notna v = true → is_Some (to_numeric v)) s →
  notna <$> to_numeric_coerce s = notna <$> s.
Proof.
  unfold to_numeric_coerce. rewrite <-list_fmap_compose. intros Hs.
  apply list_fmap_ext. intros i v Hv. simpl.
  rewrite Forall_forall in Hs.
  pose proof (Hs v (list_elem_of_lookup_2 _ _ _ Hv)) as Hparse.
  destruct v as [|x|t]; simpl in *; try done.
  by destruct Hparse as [x ->].
Qed.

(** With the tag inferred for it, a column keeps its nulls and gets no
    other. *)
Lemma notna_apply_inferred c s :
  notna <$> apply_dtype (infer_dtype c s) s = notna <$> s.
Proof.
  unfold apply_dtype.
  destruct (decide (infer_dtype c s = py "string")) as [|Hnum];
    [apply notna_astype_string|].
  apply infer_dtype_numeric in Hnum.
  repeat case_decide; auto using notna_astype_string, notna_to_numeric_coerce.
  destruct (astype_Int64 _) as [s'|] eqn:E; [|apply notna_astype_string].
  rewrite (notna_astype_Int64 _ _ E). by apply notna_to_numeric_coerce.
Qed.

Lemma no_number_astype_string s :
  Forall (λ v, no_number v = true) (astype_string s).
Proof. unfold astype_string. apply Forall_fmap, Forall_true. by intros [| |]. Qed.

Lemma no_text_to_numeric_coerce s :
  Forall (λ v, no_text v = true) (to_numeric_coerce s).
Proof.
  unfold to_numeric_coerce. apply Forall_fmap, Forall_true. intros v. simpl.
  by destruct (to_numeric v).
Qed.

Lemma no_text_astype_Int64 s s' :
  Forall (λ v, no_text v = true) s → astype_Int64 s = Some s' →
  Forall (λ v, no_text v = true) s'.
Proof.
  unfold astype_Int64. intros Hs H%mapM_Some_1.
  induction H as [|v v' s s' Hv _ IH]; [constructor|].
  apply Forall_cons in Hs as [Hv' Hs]. constructor; [|by apply IH].
  destruct v as [|x|t]; simplify_eq/=; try done.
  by destruct (to_Int64 x); simplify_eq/=.
Qed.

(** *** Assigning a column *)

Lemma row_cell_insert_same cols (r : list (cell num)) i c v :
  NoDup cols → cols !! i = Some c → length r = length cols →
  row_cell cols (<[i := v]> r) c = v.
Proof.
  intros Hnd Hi Hlen. unfold row_cell. rewrite (label_index_NoDup _ _ _ Hnd Hi).
  rewrite list_lookup_insert_eq; [done|].
  rewrite Hlen. by eapply lookup_lt_Some.
Qed.

Lemma row_cell_insert_other cols (r : list (cell num)) i c c' v :
  cols !! i = Some c → c' ≠ c →
  row_cell cols (<[i := v]> r) c' = row_cell cols r c'.
Proof.
  intros Hi Hne. unfold row_cell.
  destruct (label_index c' cols) as [j|] eqn:E; [|done].
  apply label_index_Some in E. rewrite list_lookup_insert_ne; [done|].
  intros ->. congruence.
Qed.

Lemma setcol_rows cols (rs : list (list (cell num))) i c s :
  NoDup cols → cols !! i = Some c →
  Forall (λ r, length r = length cols) rs → length s = length rs →
  Forall (λ r, length r = length cols) (zip_with (λ r v, <[i := v]> r) rs s)
  ∧ length (zip_with (λ r v, <[i := v]> r) rs s) = length rs
  ∧ (λ r, row_cell cols r c) <$> zip_with (λ r v, <[i := v]> r) rs s = s
  ∧ ∀ c', c' ≠ c →
          (λ r, row_cell cols r c') <$> zip_with (λ r v, <[i := v]> r) rs s
          = (λ r, row_cell cols r c') <$> rs.
Proof.
  intros Hnd Hi Hrows. revert s.
  induction Hrows as [|r rs Hr _ IH]; intros [|v s] Hlen; try done.
  injection Hlen as Hlen.
  destruct (IH s Hlen) as (Hwf & Hlen' & Hsame & Hother). csimpl.
  split_and!.
  - constructor; [by rewrite length_insert|done].
  - by rewrite Hlen'.
  - by rewrite Hsame, (row_cell_insert_same _ _ _ _ _ Hnd Hi Hr).
  - intros c' Hne.
    by rewrite (Hother c' Hne), (row_cell_insert_other _ _ _ _ _ _ Hi Hne).
Qed.

Lemma df_setcol_spec df c s :
  df_wf df → c ∈ columns df → length s = length (rows df) →
  columns (df_setcol df c s) = columns df
  ∧ df_wf (df_setcol df c s)
  ∧ length (rows (df_setcol df c s)) = length (rows df)
  ∧ df_getitem (df_setcol df c s) c = s
  ∧ ∀ c', c' ≠ c → df_getitem (df_setcol df c s) c' = df_getitem df c'.
Proof.
  intros [Hnd Hrows] Hc Hlen. unfold df_setcol.
  destruct (label_index c (columns df)) as [i|] eqn:Hi;
    [|by apply label_index_None in Hi].
  apply label_index_Some in Hi. unfold df_getitem. simpl.
  destruct (setcol_rows _ _ _ _ _ Hnd Hi Hrows Hlen) as (? & ? & ? & ?).
  by split_and!.
Qed.

Lemma apply_dtypes_step_spec out c t :
  df_wf out →
  columns (apply_dtypes_step out (c, t)) = columns out
  ∧ df_wf (apply_dtypes_step out (c, t))
  ∧ length (rows (apply_dtypes_step out (c, t))) = length (rows out)
  ∧ (c ∈ columns out →
     df_getitem (apply_dtypes_step out (c, t)) c
     = apply_dtype t (df_getitem out c))
  ∧ ∀ c', c' ≠ c →
          df_getitem (apply_dtypes_step out (c, t)) c' = df_getitem out c'.
Proof.
  intros Hwf. unfold apply_dtypes_step. simpl.
  destruct (decide (c ∈ columns out)) as [Hc|Hc]; [|done].
  destruct (df_setcol_spec out c (apply_dtype t (df_getitem out c)) Hwf Hc)
    as (? & ? & ? & ? & ?); [|done].
  unfold df_getitem. by rewrite length_apply_dtype, length_fmap.
Qed.

(** The loop of [apply_dtypes] over the entries [l] of a dict. *)
Lemma apply_dtypes_loop (l : list (str * str)) df :
  NoDup l.*1 → df_wf df →
  columns (foldl apply_dtypes_step df l) = columns df
  ∧ df_wf (foldl apply_dtypes_step df l)
  ∧ length (rows (foldl apply_dtypes_step df l)) = length (rows df)
  ∧ ∀ c, c ∈ columns df →
         df_getitem (foldl apply_dtypes_step df l) c
         = match (list_to_map l : gmap str str) !! c with
           | Some t => apply_dtype t (df_getitem df c)
           | None => df_getitem df c
           end.
Proof.
  revert df. induction l as [|[k t] l IH]; intros df Hnd Hwf.
  { simpl. repeat split; try done; apply Hwf. }
  rewrite fmap_cons in Hnd. apply NoDup_cons in Hnd as [Hk Hnd].
  destruct (apply_dtypes_step_spec df k t Hwf)
    as (Hcols & Hwf' & Hlen & Hsame & Hother).
  destruct (IH (apply_dtypes_step df (k, t)) Hnd Hwf')
    as (Hcols' & Hwf'' & Hlen' & Hget).
  simpl. split; [congruence|]. split; [done|]. split; [congruence|].
  intros c Hc. rewrite Hget by (by rewrite Hcols).
  destruct (decide (c = k)) as [->|Hne].
  - rewrite lookup_insert_eq.
    rewrite (not_elem_of_list_to_map_1 _ _ Hk). by apply Hsame.
  - rewrite lookup_insert_ne by done. rewrite (Hother c Hne).
    by destruct (list_to_map l !! c).
Qed.

Lemma apply_dtypes_spec df (dtypes : gmap str str) :
  df_wf df →
  columns (apply_dtypes df dtypes) = columns df
  ∧ df_wf (apply_dtypes df dtypes)
  ∧ length (rows (apply_dtypes df dtypes)) = length (rows df)
  ∧ ∀ c, c ∈ columns df →
         df_getitem (apply_dtypes df dtypes) c
         = match dtypes !! c with
           | Some t => apply_dtype t (df_getitem df c)
           | None => df_getitem df c
           end.
Proof.
  intros Hwf. unfold apply_dtypes.
  pose proof (apply_dtypes_loop (map_to_list dtypes) df
                (NoDup_fst_map_to_list dtypes) Hwf) as H.
  by rewrite list_to_map_to_list in H.
Qed.

End typing.

Section typing_contract.
Context {num : Type} `{Nm : Numeric num} `{Cs : Casting num}.
Implicit Types (df : DataFrame num) (s : list (cell num)) (c t : str).

(** The dict [build_simple_dtypes] returns has the labels of the table as
    its keys, no other, and each value is one of the three tags. *)
Theorem build_simple_dtypes_keys df :
  dom (build_simple_dtypes df) = list_to_set (columns df)
  ∧ ∀ c t, build_simple_dtypes df !! c = Some t →
           c ∈ columns df ∧ (t = py "int" ∨ t = py "float" ∨ t = py "string").
Proof.
  assert (∀ c, build_simple_dtypes df !! c
               = if decide (c ∈ columns df)
                 then Some (infer_dtype c (df_getitem df c)) else None) as Hget.
  { intros c. unfold build_simple_dtypes.
    by rewrite (foldl_insert_lookup (λ c, infer_dtype c (df_getitem df c))). }
  split.
  - apply set_eq. intros c. rewrite elem_of_dom, elem_of_list_to_set, Hget.
    case_decide; [by split; eauto|]. split; [by intros [? ?]|done].
  - intros c t. rewrite Hget. case_decide; [|done]. intros [= <-].
    split; [done|]. apply infer_dtype_tags.
Qed.

(** The tag of a column depends on its non-null values only, not on their
    order, nor on the nulls between them. *)
Theorem infer_dtype_non_null c s s' :
  filter (λ v, notna v = true) s ≡ₚ filter (λ v, notna v = true) s' →
  infer_dtype c s = infer_dtype c s'.
Proof.
  intros Hperm. unfold infer_dtype. rewrite !masked_notna.
  destruct (decide (c = py "_sheet")); [done|].
  destruct (decide (filter _ s = [])) as [E|E].
  - rewrite E in Hperm. apply Permutation_nil_l in Hperm.
    by rewrite decide_True.
  - rewrite decide_False.
    + by rewrite !(forallb_Permutation _ _ _ (fmap_Permutation to_numeric _ _ Hperm)).
    + intros E'. rewrite E' in Hperm. by apply Permutation_nil_r in Hperm.
Qed.

(** [apply_dtypes] works column by column: the table keeps its labels and
    its number of rows; a column with a tag in the dict becomes what the
    tag makes of it, whatever the other entries and their order; a column
    without a tag is left as it is, and a key that is no label is passed
    over. *)
Theorem apply_dtypes_columnwise df (dtypes : gmap str str) :
  df_wf df →
  columns (apply_dtypes df dtypes) = columns df
  ∧ df_wf (apply_dtypes df dtypes)
  ∧ length (rows (apply_dtypes df dtypes)) = length (rows df)
  ∧ ∀ c, c ∈ columns df →
         df_getitem (apply_dtypes df dtypes) c
         = match dtypes !! c with
           | Some t => apply_dtype t (df_getitem df c)
           | None => df_getitem df c
           end.
Proof. apply apply_dtypes_spec. Qed.

(** With the tags inferred from the table itself, typing loses no value:
    in every column the nulls are where they were. *)
Theorem apply_dtypes_inferred_keeps_nulls df c :
  df_wf df → c ∈ columns df →
  notna <$> df_getitem (apply_dtypes df (build_simple_dtypes df)) c
  = notna <$> df_getitem df c.
Proof.
  intros Hwf Hc.
  destruct (apply_dtypes_spec df (build_simple_dtypes df) Hwf)
    as (_ & _ & _ & Hget).
  rewrite (Hget c Hc), (build_simple_dtypes_lookup df c Hc).
  apply notna_apply_inferred.
Qed.


End typing_contract.

Lemma infer_dtype_non_null_witness :
  infer_dtype (py "a") [NA; Num 1%Q; Text (py "2")]
  = infer_dtype (py "a") [Text (py "2"); NA; Num 1%Q].
Proof. apply infer_dtype_non_null. vm_compute. apply perm_swap. Defined.

Lemma apply_dtypes_columnwise_witness :
  columns (apply_dtypes marks_table {[ py "b" := py "float"; py "z" := py "int" ]})
  = columns marks_table
  ∧ df_wf (apply_dtypes marks_table {[ py "b" := py "float"; py "z" := py "int" ]})
  ∧ length (rows (apply_dtypes marks_table
                    {[ py "b" := py "float"; py "z" := py "int" ]}))
    = length (rows marks_table)
  ∧ ∀ c, c ∈ columns marks_table →
         df_getitem (apply_dtypes marks_table
                       {[ py "b" := py "float"; py "z" := py "int" ]}) c
         = match ({[ py "b" := py "float"; py "z" := py "int" ]} : gmap str str) !! c with
           | Some t => apply_dtype t (df_getitem marks_table c)
           | None => df_getitem marks_table c
           end.
Proof. apply apply_dtypes_columnwise. df_wf_by_evaluation. Defined.

Lemma apply_dtypes_inferred_keeps_nulls_witness :
  notna <$> df_getitem (apply_dtypes marks_table (build_simple_dtypes marks_table))
              (py "b")
  = notna <$> df_getitem marks_table (py "b").
Proof.
  apply apply_dtypes_inferred_keeps_nulls; [df_wf_by_evaluation|compute_done].
Defined.


(** ** Unifying, then typing: the table that is exported *)

Section pipeline.
Context {num : Type} `{Nm : Numeric num} `{Cs : Casting num} `{U : Unicode}.
Variable list_of_set : gset str → list str.
Hypothesis list_of_set_elements : ∀ X, list_of_set X ≡ₚ elements X.
Implicit Types (frames : list (str * DataFrame num)).

Lemma master_rows_wf labels frames :
  Forall (λ r : list (cell num), length r = length labels)
    (frames ≫= (λ e, master_row labels e.1 (columns (normalize_headers e.2))
                     <$> rows e.2)).
Proof.
  apply Forall_forall. intros r Hr.
  apply list_elem_of_bind in Hr as (e & Hr & _).
  apply list_elem_of_fmap in Hr as (r' & -> & _).
  unfold master_row. by rewrite length_fmap.
Qed.

Lemma master_sheet_cells labels frames :
  NoDup labels → py "_sheet" ∈ labels →
  (λ r, row_cell labels r (py "_sheet"))
  <$> (frames ≫= (λ e, master_row labels e.1 (columns (normalize_headers e.2))
                       <$> rows e.2))
  = frames ≫= (λ e, replicate (length (rows e.2)) (Text e.1)).
Proof.
  intros Hnd Hin. rewrite fmap_bind_rows.
  induction frames as [|e l IH]; [done|]. rewrite !bind_cons.
  f_equal; [|done].
  induction (rows e.2) as [|r rs IHr]; [done|]. csimpl.
  rewrite master_row_sheet by done. by f_equal.
Qed.

Lemma astype_string_texts (l : list str) :
  astype_string (Text <$> l) = (Text <$> l : list (cell num)).
Proof.
  unfold astype_string. rewrite <-list_fmap_compose. by apply list_fmap_ext.
Qed.

Lemma bind_replicate_texts frames :
  frames ≫= (λ e, replicate (length (rows e.2)) (Text e.1))
  = (Text <$> (frames ≫= (λ e, replicate (length (rows e.2)) e.1))
     : list (cell num)).
Proof.
  rewrite fmap_bind_rows. induction frames as [|e l IH]; [done|].
  rewrite !bind_cons, IH. f_equal. by rewrite fmap_replicate.
Qed.


End pipeline.


(** ** The files of the columns *)

Lemma py_inj (a b : string) : py a = py b → a = b.
Proof.
  revert b. induction a as [|x a IH]; intros [|y b]; simpl; try done.
  intros [= Hxy Hab]. f_equal; [|by apply IH].
  by rewrite <-(ascii_N_embedding x), <-(ascii_N_embedding y), Hxy.
Qed.

Lemma str_of_nat_inj (i j : nat) : str_of_nat i = str_of_nat j → i = j.
Proof. unfold str_of_nat. intros H%py_inj. by apply (inj pretty). Qed.

Lemma candidate_name_next fname (i : nat) :
  (1 ≤ i)%nat →
  candidate_name fname (S i) = fname ++ underscore :: str_of_nat (S i).
Proof. destruct i; [lia|done]. Qed.

(** The names tried for a column are pairwise distinct. *)
Lemma candidate_name_inj fname (i j : nat) :
  (1 ≤ i)%nat → (1 ≤ j)%nat →
  candidate_name fname i = candidate_name fname j → i = j.
Proof.
  assert (∀ k : nat, fname ≠ fname ++ underscore :: str_of_nat k) as Hlen.
  { intros k E. apply (f_equal length) in E. rewrite length_app in E.
    simpl in E. lia. }
  destruct i as [|[|i]], j as [|[|j]]; simpl; try lia; intros _ _ E;
    try done; try (by destruct (Hlen _ E)); try (by destruct (Hlen _ (eq_sym E))).
  apply app_inv_head in E. injection E as E. by apply str_of_nat_inj.
Qed.

Section export_props.
Context `{U : Unicode}.
Implicit Types (used files taken : gset str) (names cols : list str).

(** The [while] loop ends within one turn more than there are names to
    avoid, on the first name that is free. *)
Lemma free_candidate_spec fname (fuel : nat) used files taken (i : nat) :
  (1 ≤ i)%nat →
  (∀ m : nat, (i ≤ m)%nat →
     candidate_name fname m ∈ used ∨ candidate_name fname m ∈ files
     ↔ candidate_name fname m ∈ taken) →
  (size taken < fuel)%nat →
  ∃ k : nat,
    (i ≤ k)%nat
    ∧ free_candidate fuel used files fname (candidate_name fname i) i
      = Some (candidate_name fname k)
    ∧ (candidate_name fname k ∉ used)
    ∧ (candidate_name fname k ∉ files)
    ∧ ∀ m : nat, (i ≤ m < k)%nat →
        candidate_name fname m ∈ used ∨ candidate_name fname m ∈ files.
Proof.
  revert taken i. induction fuel as [|fuel IH]; intros taken i Hi Htaken Hsize;
    [lia|].
  simpl. destruct (decide (_ ∨ _)) as [Hin|Hout].
  - assert (candidate_name fname i ∈ taken) as Hin' by by apply Htaken.
    destruct (IH (taken ∖ {[candidate_name fname i]}) (S i)) as
      (k & Hk & Hrun & Hused & Hfiles & Hbelow).
    + lia.
    + intros m Hm. rewrite (Htaken m) by lia.
      rewrite elem_of_difference, not_elem_of_singleton.
      split; [|tauto]. intros H. split; [done|].
      intros E. apply candidate_name_inj in E; lia.
    + rewrite size_difference by (by apply singleton_subseteq_l).
      rewrite size_singleton.
      assert (size taken ≠ 0)%nat; [|lia].
      intros Hz. apply size_empty_inv in Hz. by apply Hz in Hin'.
    + exists k. rewrite <-(candidate_name_next fname i Hi), Hrun.
      split_and!; try done; [lia|]. intros m Hm.
      destruct (decide (m = i)) as [->|]; [done|]. apply Hbelow. lia.
  - exists i. split_and!; try done; [tauto|tauto|]. intros m Hm. lia.
Qed.

Lemma free_candidate_first used files fname :
  ∃ k : nat,
    (1 ≤ k)%nat
    ∧ free_candidate (S (size (used ∪ files))) used files fname fname 1
      = Some (candidate_name fname k)
    ∧ (candidate_name fname k ∉ used)
    ∧ (candidate_name fname k ∉ files)
    ∧ ∀ m : nat, (1 ≤ m < k)%nat →
        candidate_name fname m ∈ used ∨ candidate_name fname m ∈ files.
Proof.
  apply (free_candidate_spec fname _ used files (used ∪ files) 1); [lia| |lia].
  intros m _. by rewrite elem_of_union.
Qed.

(** The loop over the columns, from the names given so far. *)
Lemma export_loop files cols : ∀ names used files',
  (∀ n, n ∈ used ↔ n ∈ names) →
  (∀ n, n ∈ files' ↔ n ∈ files ∨ n ∈ names) →
  NoDup names → (∀ n, n ∈ names → n ∉ files) →
  ∃ names' used' files'',
    foldl export_column_step (Some (names, used, files')) cols
    = Some (names ++ names', used', files'')
    ∧ length names' = length cols
    ∧ NoDup (names ++ names')
    ∧ (∀ n, n ∈ names' → n ∉ files)
    ∧ ∀ (p : nat) col n, cols !! p = Some col → names' !! p = Some n →
        ∃ i : nat,
          (1 ≤ i)%nat ∧ n = candidate_name (safe_filename col 100) i
          ∧ ∀ m : nat, (1 ≤ m < i)%nat →
              candidate_name (safe_filename col 100) m ∈ files
              ∨ candidate_name (safe_filename col 100) m
                ∈ names ++ take p names'.
Proof.
  induction cols as [|col cols IH]; intros names used files' Hused Hfiles Hnd Hnew.
  { exists [], used, files'. rewrite app_nil_r. split_and!; try done.
    intros n Hn. by apply elem_of_nil in Hn. }
  destruct (free_candidate_first used files' (safe_filename col 100))
    as (k & Hk & Hrun & Hfree & Hfree' & Hbelow).
  set (cand := candidate_name (safe_filename col 100) k) in *.
  assert (export_column_step (Some (names, used, files')) col
          = Some (names ++ [cand], {[cand]} ∪ used, {[cand]} ∪ files'))
    as Hstep.
  { unfold export_column_step. cbn [mbind option_bind]. by rewrite Hrun. }
  cbn [foldl]. rewrite Hstep.
  assert (cand ∉ names) as Hnames by (by rewrite <-Hused).
  assert (cand ∉ files) as Hfiles0.
  { intros Hin. apply Hfree', Hfiles. by left. }
  destruct (IH (names ++ [cand]) ({[cand]} ∪ used) ({[cand]} ∪ files'))
    as (names' & used' & files'' & Hfold & Hlen & Hnd' & Hnew' & Hchoice).
  - intros n. rewrite elem_of_union, elem_of_singleton, elem_of_app,
      list_elem_of_singleton, Hused. tauto.
  - intros n. rewrite elem_of_union, elem_of_singleton, elem_of_app,
      list_elem_of_singleton, Hfiles. tauto.
  - apply NoDup_app. split_and!; [done| |apply NoDup_singleton].
    intros n Hn ->%list_elem_of_singleton. done.
  - intros n [Hn| ->%list_elem_of_singleton]%elem_of_app; auto.
  - exists (cand :: names'), used', files''.
    rewrite <-(assoc_L (++)) in Hfold, Hnd'. simpl in Hfold, Hnd'.
    split_and!; try done.
    + simpl. by rewrite Hlen.
    + intros n [->|Hn]%elem_of_cons; auto.
    + intros [|p] col' n Hcol Hn; simplify_eq/=.
      * exists k. split_and!; try done. intros m Hm. rewrite app_nil_r.
        destruct (Hbelow m Hm) as [Hin|Hin].
        -- right. by apply Hused.
        -- by apply Hfiles.
      * destruct (Hchoice p col' n Hcol Hn) as (i & Hi & -> & Hlow).
        exists i. split_and!; try done. intros m Hm.
        specialize (Hlow m Hm). by rewrite <-(assoc_L (++)) in Hlow.
Qed.

Lemma export_columns_names_spec files cols :
  ∃ names,
    export_columns_names files cols = Some names
    ∧ length names = length cols
    ∧ NoDup names
    ∧ (∀ n, n ∈ names → n ∉ files)
    ∧ ∀ (p : nat) col n, cols !! p = Some col → names !! p = Some n →
        ∃ i : nat,
          (1 ≤ i)%nat ∧ n = candidate_name (safe_filename col 100) i
          ∧ ∀ m : nat, (1 ≤ m < i)%nat →
              candidate_name (safe_filename col 100) m ∈ files
              ∨ candidate_name (safe_filename col 100) m ∈ take p names.
Proof.
  destruct (export_loop files cols [] ∅ files)
    as (names & used' & files'' & Hfold & ?).
  - intros n. rewrite elem_of_empty, elem_of_nil. tauto.
  - intros n. rewrite elem_of_nil. tauto.
  - constructor.
  - intros n Hn. by apply elem_of_nil in Hn.
  - exists names. unfold export_columns_names. by rewrite Hfold.
Qed.

(** [export_columns_csvs] always ends and writes one file per column,
    under names that are pairwise distinct and none of which was in the
    directory before: no file is written over, neither one that was there
    nor one of this run. *)
Theorem export_columns_csvs_no_overwrite files cols :
  ∃ names,
    export_columns_names files cols = Some names
    ∧ length names = length cols
    ∧ NoDup names
    ∧ ∀ n, n ∈ names → n ∉ files.
Proof.
  destruct (export_columns_names_spec files cols) as (names & ? & ? & ? & ? & _).
  by exists names.
Qed.

(** The file of a column is named by the first free name among
    [safe_filename(col)], then that name with [_2], [_3], ... (there is no
    [_1]): every name before the chosen one is a file that was there or
    the file of an earlier column. *)
Theorem export_columns_csvs_first_free files cols names (p : nat) col n :
  export_columns_names files cols = Some names →
  cols !! p = Some col → names !! p = Some n →
  ∃ i : nat,
    (1 ≤ i)%nat
    ∧ n = (if decide (i = 1%nat) then safe_filename col 100
           else safe_filename col 100 ++ underscore :: str_of_nat i)
    ∧ ∀ m : nat, (1 ≤ m < i)%nat →
        candidate_name (safe_filename col 100) m ∈ files
        ∨ candidate_name (safe_filename col 100) m ∈ take p names.
Proof.
  intros Hnames Hcol Hn.
  destruct (export_columns_names_spec files cols)
    as (names' & Hnames' & _ & _ & _ & Hchoice).
  rewrite Hnames in Hnames'. injection Hnames' as <-.
  destruct (Hchoice p col n Hcol Hn) as (i & Hi & -> & Hlow).
  exists i. split_and!; try done. by destruct i as [|[|i]].
Qed.

(** When the safe names of the columns are pairwise distinct and none is
    a file of the directory, each column is written under its safe
    name. *)
Theorem export_columns_csvs_plain_names files cols :
  NoDup ((λ col, safe_filename col 100) <$> cols) →
  (∀ col, col ∈ cols → safe_filename col 100 ∉ files) →
  export_columns_names files cols
  = Some ((λ col, safe_filename col 100) <$> cols).
Proof.
  intros Hnd Hnew. unfold export_columns_names.
  assert (∀ names used files',
            (∀ n, n ∈ used ↔ n ∈ names) →
            (∀ n, n ∈ files' ↔ n ∈ files ∨ n ∈ names) →
            NoDup (names ++ ((λ col, safe_filename col 100) <$> cols)) →
            ∃ used' files'',
              foldl export_column_step (Some (names, used, files')) cols
              = Some (names ++ ((λ col, safe_filename col 100) <$> cols),
                      used', files'')) as Hloop.
  { clear Hnd. induction cols as [|col cols IH];
      intros names used files' Hused Hfiles Hnd.
    { exists used, files'. by rewrite app_nil_r. }
    csimpl in *. apply NoDup_app in Hnd as (Hnd1 & Hdisj & Hnd2).
    apply NoDup_cons in Hnd2 as [Hcol Hnd2].
    assert (safe_filename col 100 ∉ names) as Hnames.
    { intros Hin. apply (Hdisj _ Hin). apply elem_of_cons. by left. }
    rewrite decide_False.
    - simpl.
      destruct (IH (λ c Hc, Hnew c (proj2 (elem_of_cons _ _ _) (or_intror Hc)))
                  (names ++ [safe_filename col 100])
                  ({[safe_filename col 100]} ∪ used)
                  ({[safe_filename col 100]} ∪ files'))
        as (used' & files'' & Hfold).
      + intros n. rewrite elem_of_union, elem_of_singleton, elem_of_app,
          list_elem_of_singleton, Hused. tauto.
      + intros n. rewrite elem_of_union, elem_of_singleton, elem_of_app,
          list_elem_of_singleton, Hfiles. tauto.
      + rewrite <-(assoc_L (++)). simpl. apply NoDup_app. split_and!; [done| |].
        * intros n Hn [->|Hn']%elem_of_cons; [done|]. apply (Hdisj n Hn).
          apply elem_of_cons. by right.
        * by apply NoDup_cons.
      + exists used', files''. by rewrite Hfold, <-(assoc_L (++)).
    - rewrite Hused, Hfiles. intros [?|[?|?]]; try done.
      apply (Hnew col); [|done]. apply elem_of_cons. by left. }
  destruct (Hloop [] ∅ files) as (used' & files'' & Hfold).
  - intros n. rewrite elem_of_empty, elem_of_nil. tauto.
  - intros n. rewrite elem_of_nil. tauto.
  - done.
  - by rewrite Hfold.
Qed.

End export_props.

Lemma export_columns_csvs_first_free_witness :
  ∃ i : nat,
    (1 ≤ i)%nat
    ∧ py "id_4" = (if decide (i = 1%nat) then safe_filename (py "ID") 100
                   else safe_filename (py "ID") 100 ++ underscore :: str_of_nat i)
    ∧ ∀ m : nat, (1 ≤ m < i)%nat →
        candidate_name (safe_filename (py "ID") 100) m
        ∈ ({[py "id"; py "id_2"]} : gset str)
        ∨ candidate_name (safe_filename (py "ID") 100) m
          ∈ take 1 [py "id_3"; py "id_4"; py "x"].
Proof.
  apply (export_columns_csvs_first_free {[py "id"; py "id_2"]}
           [py "id"; py "ID"; py "x"] [py "id_3"; py "id_4"; py "x"]
           1 (py "ID") (py "id_4")); vm_compute; reflexivity.
Defined.

Lemma export_columns_csvs_plain_names_witness :
  export_columns_names {[py "id"]} [py "Nombre"; py "Edad"]
  = Some ((λ col, safe_filename col 100) <$> [py "Nombre"; py "Edad"]).
Proof.
  apply export_columns_csvs_plain_names; [compute_done|].
  intros col Hc.
  repeat (apply elem_of_cons in Hc as [->|Hc]; [compute_done|]).
  by apply elem_of_nil in Hc.
Defined.

(** ** The ends of a file name, and the table of a column *)

Lemma hex_digit_not_blank x : space_or_dot (hex_digit x) = false.
Proof.
  unfold hex_digit.
  assert (Z.to_nat (x `mod` 16) < 16)%nat as Hlt.
  { pose proof (Z.mod_pos_bound x 16). lia. }
  destruct (Z.to_nat (x `mod` 16)) as [|n]; [reflexivity|].
  do 15 (destruct n as [|n]; [reflexivity|]). lia.
Qed.

Lemma md5_hexdigest_not_blank s :
  Forall (λ c, space_or_dot c = false) (md5_hexdigest s).
Proof.
  unfold md5_hexdigest. apply Forall_forall. intros c Hc.
  apply list_elem_of_bind in Hc as (b & Hc & _). unfold hex_byte in Hc.
  apply elem_of_cons in Hc as [->|Hc]; [apply hex_digit_not_blank|].
  apply list_elem_of_singleton in Hc as ->. apply hex_digit_not_blank.
Qed.

Lemma strip_head p (s : str) : head_outside p (strip p s).
Proof.
  unfold strip. pose proof (lstrip_head p s) as Hhead.
  destruct (lstrip_suffix p (reverse (lstrip p s))) as [ws Hws].
  apply (f_equal reverse) in Hws. rewrite reverse_involutive, reverse_app in Hws.
  destruct (reverse (lstrip p (reverse (lstrip p s)))) as [|c t]; [done|].
  rewrite Hws in Hhead. exact Hhead.
Qed.

Lemma strip_last p (s : str) : head_outside p (reverse (strip p s)).
Proof. unfold strip. rewrite reverse_involutive. apply lstrip_head. Qed.

Lemma head_outside_head p (s : str) c :
  head_outside p s → head s = Some c → p c = false.
Proof. destruct s; simpl; [done|]. by intros ? [= <-]. Qed.

Section file_name_ends.
Context `{U : Unicode}.

Lemma safe_filename_base_ends name c :
  safe_filename_base name ≠ []
  ∧ (head (safe_filename_base name) = Some c
     ∨ last (safe_filename_base name) = Some c → space_or_dot c = false).
Proof.
  unfold safe_filename_base. case_decide as E.
  - split; [done|]. by intros [[= <-]|[= <-]].
  - split; [done|]. intros [Hc|Hc].
    + eapply head_outside_head; [apply strip_head|done].
    + rewrite <-head_reverse in Hc.
      eapply head_outside_head; [apply strip_last|done].
Qed.

(** A file name made by [safe_filename] is never empty, and neither
    begins nor ends with a space or a dot, whatever the name and the bound,
    also when the name is cut and a digest appended. *)
Theorem safe_filename_ends name max_len :
  safe_filename name max_len ≠ []
  ∧ ∀ c, head (safe_filename name max_len) = Some c
         ∨ last (safe_filename name max_len) = Some c →
         space_or_dot c = false.
Proof.
  unfold safe_filename.
  destruct (Z.of_nat (length (safe_filename_base name)) >? max_len)%Z;
    [|split; [apply (safe_filename_base_ends name 0)|
              intros c; apply safe_filename_base_ends]].
  assert (∃ k, slice_to (max_len - 9) (safe_filename_base name)
               = take k (safe_filename_base name)) as [k ->].
  { unfold slice_to. destruct (0 <=? max_len - 9)%Z; eauto. }
  split; [by destruct (take k _)|]. intros c [Hc|Hc].
  - destruct k as [|k]; [by injection Hc as <-|].
    destruct (safe_filename_base_ends name c) as [Hne Hends].
    apply Hends. left. by destruct (safe_filename_base name).
  - rewrite last_app_cons in Hc. apply last_Some_elem_of in Hc.
    apply elem_of_cons in Hc as [->|Hc]; [done|].
    pose proof (md5_hexdigest_not_blank (safe_filename_base name)) as Hhex.
    rewrite Forall_forall in Hhex. apply Hhex.
    by apply (subseteq_take 8).
Qed.

End file_name_ends.

Section column_files.
Context {num : Type}.
Implicit Types (df : DataFrame num) (col : str).

(** The table written for a column holds the row numbers under
    [row_index] and the cells of the column under its label, in this
    order; for a column that is itself labelled [row_index] it holds the
    cells of the column only, the row numbers having been replaced. *)
Theorem column_frame_row_index df col :
  (column_frame df col).*1
  = (if decide (col = py "row_index") then [py "row_index"]
     else [py "row_index"; col])
  ∧ (col, Column (df_getitem df col)) ∈ column_frame df col
  ∧ ((py "row_index", RowIndex (length (rows df))) ∈ column_frame df col
     ↔ col ≠ py "row_index").
Proof.
  unfold column_frame. cbn [dict_set].
  destruct (decide (py "row_index" = col)) as [<-|Hne].
  - rewrite decide_True by done. split_and!; [done|apply elem_of_cons; by left|].
    split; [|done]. intros [[=]|H]%elem_of_cons. by apply elem_of_nil in H.
  - rewrite decide_False by done. split_and!; [done| |].
    + apply elem_of_cons. right. apply elem_of_cons. by left.
    + split; [done|]. intros _. apply elem_of_cons. by left.
Qed.

End column_files.

(** ** A workbook without sheets *)

Section no_sheets.
Context {num : Type} `{U : Unicode}.
Variable list_of_set : gset str → list str.
Hypothesis list_of_set_elements : ∀ X, list_of_set X ≡ₚ elements X.


End no_sheets.

